(** * Notes client: note editing session and attachment manager

    A shallow embedding of the two React components that make up the
    note-editing workflow:

    - [FileUpload] (src/components/FileUpload.tsx): the drop zone, the
      per-file upload jobs and the removal of a single attachment;
    - [NotePage] (src/pages/Dashboard.tsx, second half): the editing session
      with [fetchNote], [handleSave], [handleDelete], [handleUploadComplete]
      and [handleRemoveFile].

    Handlers are written as programs over the calls they make to the outside
    world (the remote store, the storage bucket, [window.confirm],
    [Math.random], [console.error], [navigate]); [Eff.run] executes such a
    program against an arbitrary environment and records the trace. *)

From stdpp Require Import base list gmap numbers strings.

Set Default Proof Using "Type".

(* ===================================================================== *)
(** ** JavaScript text and arrays                                         *)
(* ===================================================================== *)

(** A JavaScript string is a sequence of UTF-16 code units. *)
Abbreviation jsstring := (list N).

Module JS.

(** Code units of a literal written in ASCII. *)
Definition str (s : string) : jsstring :=
  Ascii.N_of_ascii <$> String.list_ascii_of_string s.

Definition dot : N := 46.
Definition slash : N := 47.

(** [WhiteSpace] and [LineTerminator] code points, the set removed by
    [String.prototype.trim]. *)
Definition isWhiteSpace (c : N) : bool :=
  bool_decide (c ∈ [9; 10; 11; 12; 13; 32; 160; 5760; 8232; 8233; 8239;
                    8287; 12288; 65279]%N)
  || ((8192 <=? c) && (c <=? 8202))%N.

Fixpoint trimStart (s : jsstring) : jsstring :=
  match s with
  | [] => []
  | c :: s' => if isWhiteSpace c then trimStart s' else s
  end.

Definition trimEnd (s : jsstring) : jsstring :=
  reverse (trimStart (reverse s)).

(** [s.trim()] *)
Definition trim (s : jsstring) : jsstring := trimEnd (trimStart s).

(** [s.split(sep)] for a separator of one code unit. *)
Fixpoint split (sep : N) (s : jsstring) : list jsstring :=
  match s with
  | [] => [[]]
  | c :: s' =>
      if (c =? sep)%N then [] :: split sep s'
      else match split sep s' with
           | seg :: segs => (c :: seg) :: segs
           | [] => [[c]]
           end
  end.

(** [a.pop()] as an expression: the last element, [undefined] on an empty
    array. *)
Definition pop {A} (a : list A) : option A := last a.

(** A value of type [string | undefined] spliced into a template literal. *)
Definition template (v : option jsstring) : jsstring :=
  match v with
  | Some s => s
  | None => str "undefined"
  end.

(** Truthiness of a [string | undefined]. *)
Definition truthy (v : option jsstring) : bool :=
  match v with
  | Some (_ :: _) => true
  | _ => false
  end.

(** *** [encodeURI] *)

(** The code units [encodeURI] leaves as they are: letters, digits, the
    marks [- _ . ! ~ * ' ( )], the reserved characters
    [; / ? : @ & = + $ ,] and [#]. *)
Definition uriUnescaped (c : N) : bool :=
  ((65 <=? c) && (c <=? 90))%N || ((97 <=? c) && (c <=? 122))%N
  || ((48 <=? c) && (c <=? 57))%N
  || bool_decide (c ∈ str ";/?:@&=+$,#-_.!~*'()").

Definition hexDigit (n : N) : N := (if n <? 10 then 48 + n else 55 + n)%N.

(** An octet written as [%XX], with upper-case digits. *)
Definition percent (b : N) : jsstring := [37; hexDigit (b / 16); hexDigit (b mod 16)]%N.

(** One code point: kept when it is unescaped, otherwise the octets of its
    UTF-8 form, each written as [%XX]. *)
Definition encodePoint (cp : N) : jsstring :=
  (if cp <? 128 then (if uriUnescaped cp then [cp] else percent cp)
   else if cp <? 2048 then
     percent (192 + cp / 64) ++ percent (128 + cp mod 64)
   else if cp <? 65536 then
     percent (224 + cp / 4096) ++ percent (128 + (cp / 64) mod 64)
     ++ percent (128 + cp mod 64)
   else
     percent (240 + cp / 262144) ++ percent (128 + (cp / 4096) mod 64)
     ++ percent (128 + (cp / 64) mod 64) ++ percent (128 + cp mod 64))%N.

Definition isHighSurrogate (c : N) : bool := ((55296 <=? c) && (c <=? 56319))%N.
Definition isLowSurrogate (c : N) : bool := ((56320 <=? c) && (c <=? 57343))%N.

(** The code point written by a surrogate pair. *)
Definition pairPoint (hi lo : N) : N := (65536 + (hi - 55296) * 1024 + (lo - 56320))%N.

(** [encodeURI(s)].  A surrogate without its partner, for which [encodeURI]
    raises [URIError], is written here as the three octets of its own
    value; no text of the development holds one. *)
Fixpoint encodeURI (s : jsstring) : jsstring :=
  match s with
  | [] => []
  | c :: s' =>
      match s' with
      | c2 :: s'' =>
          if isHighSurrogate c && isLowSurrogate c2
          then encodePoint (pairPoint c c2) ++ encodeURI s''
          else encodePoint c ++ encodeURI s'
      | [] => encodePoint c
      end
  end.

End JS.

(** The part of a browser [File] the component reads. *)
Module File.
Record t := mk { name : jsstring; size : N; type : jsstring }.
End File.

(* ===================================================================== *)
(** ** The remote service as the components see it                        *)
(* ===================================================================== *)

(** A row of table [notes] (supabase/migrations), which is also the [Note]
    interface of the note page. *)
Module Note.
Record t := mk {
  id : jsstring;
  title : jsstring;
  content : jsstring;
  category : jsstring;
  tags : list jsstring;
  attachments : list jsstring;
  user_id : option jsstring
}.
End Note.

(** The object [noteData] that [handleSave] sends: a row without its key. *)
Module NoteData.
Record t := mk {
  title : jsstring;
  content : jsstring;
  category : jsstring;
  tags : list jsstring;
  attachments : list jsstring;
  user_id : jsstring
}.
End NoteData.

Module Supabase.

(** An error object ([error.message]). *)
Inductive Err := mkErr (message : jsstring).

(** The requests the two components send. *)
Inductive Call :=
| StorageUpload (path : jsstring) (file : File.t)
    (* storage.from('notes-attachments').upload(path, file, { upsert: false }) *)
| StorageRemove (names : list (option jsstring))
    (* storage.from('notes-attachments').remove(names) *)
| NotesSelectSingle (id : jsstring)
    (* from('notes').select('*').eq('id', id).single() *)
| NotesInsert (rows : list NoteData.t)
    (* from('notes').insert(rows) *)
| NotesUpdate (data : NoteData.t) (id : jsstring)
    (* from('notes').update(data).eq('id', id) *)
| NotesDelete (id : jsstring).
    (* from('notes').delete().eq('id', id) *)

(** The object [{ data, error }] a request resolves to. *)
Record Reply := mkReply { data : option Note.t; error : option Err }.

(** How the promise of a request settles: it resolves to a reply, which may
    itself carry an error, or it rejects. *)
Inductive Outcome :=
| Fulfilled (r : Reply)
| Rejected (e : Err).

(** The idiom [const { error } = await call; if (error) throw error;]: the
    value thrown inside the enclosing [try], or the reply. *)
Definition checked (o : Outcome) : Err + Reply :=
  match o with
  | Rejected e => inl e
  | Fulfilled r =>
      match error r with
      | Some e => inl e
      | None => inr r
      end
  end.

(** A request did not succeed. *)
Definition failed (o : Outcome) : bool :=
  match checked o with
  | inl _ => true
  | inr _ => false
  end.

Definition ok : Outcome := Fulfilled (mkReply None None).

End Supabase.

(* ===================================================================== *)
(** ** Handlers as programs over their effects                            *)
(* ===================================================================== *)

Module Eff.
Import Supabase.

(** What a handler does to the page besides its state. *)
Inductive Output :=
| ConsoleError (msg : jsstring) (e : Err)
| Navigate (to : jsstring).

(** An [async] handler.  [Await] sends one request and suspends until it
    settles.  [AwaitAll] is [Promise.all] over jobs that each wait for one
    request: every request is sent, and the continuation receives the
    outcomes in the order of the jobs together with the order in which the
    jobs were resumed. *)
Inductive Proc (A : Type) : Type :=
| Ret (a : A)
| Await (c : Call) (k : Outcome → Proc A)
| AwaitAll (cs : list Call) (k : list Outcome → list nat → Proc A)
| Confirm (msg : jsstring) (k : bool → Proc A)
| MathRandom (k : jsstring → Proc A)
| Emit (out : Output) (k : Proc A).
Arguments Ret {A} a.
Arguments Await {A} c k.
Arguments AwaitAll {A} cs k.
Arguments Confirm {A} msg k.
Arguments MathRandom {A} k.
Arguments Emit {A} out k.

Fixpoint bind {A B} (p : Proc A) (f : A → Proc B) : Proc B :=
  match p with
  | Ret a => f a
  | Await c k => Await c (λ o, bind (k o) f)
  | AwaitAll cs k => AwaitAll cs (λ os order, bind (k os order) f)
  | Confirm msg k => Confirm msg (λ b, bind (k b) f)
  | MathRandom k => MathRandom (λ r, bind (k r) f)
  | Emit out k => Emit out (bind k f)
  end.

#[export] Instance proc_ret : MRet Proc := @Ret.
#[export] Instance proc_bind : MBind Proc := λ A B f p, bind p f.

Definition await (c : Call) : Proc Outcome := Await c Ret.
Definition awaitAll (cs : list Call) : Proc (list Outcome * list nat) :=
  AwaitAll cs (λ os order, Ret (os, order)).
Definition confirm (msg : jsstring) : Proc bool := Confirm msg Ret.
Definition mathRandom : Proc jsstring := MathRandom Ret.
Definition emit (out : Output) : Proc unit := Emit out (Ret ()).

(** [for (const x of xs) ...] with a result per element. *)
Fixpoint forEach {A B} (f : A → Proc B) (xs : list A) : Proc (list B) :=
  match xs with
  | [] => Ret []
  | x :: xs' => b ← f x; bs ← forEach f xs'; Ret (b :: bs)
  end.

(** What an observer of the page sees, in order. *)
Inductive Event :=
| Called (c : Call) (o : Outcome)
| Asked (msg : jsstring) (answer : bool)
| Drew (r : jsstring)
| Did (out : Output).

(** Everything outside the component: the service behind the requests, the
    user answering [window.confirm], the random number generator (which
    hands out the decimal text of the number drawn) and the scheduler that
    decides in which order concurrent jobs are resumed. *)
Record Env := mkEnv {
  world : Type;
  serve : Call → world → Outcome * world;
  answer : jsstring → world → bool * world;
  random : world → jsstring * world;
  picks : nat → world → list nat * world
}.

(** Decode a list of picks into an order on the pending jobs: each pick
    selects, modulo the number of jobs still pending, the next job to
    resume. *)
Fixpoint schedule (n : nat) (ps : list nat) (pending : list nat) : list nat :=
  match n with
  | 0 => []
  | S n' =>
      let i := hd 0 ps `mod` length pending in
      match pending !! i with
      | Some j => j :: schedule n' (tl ps) (delete i pending)
      | None => []
      end
  end.

Definition completionOrder (ps : list nat) (n : nat) : list nat :=
  schedule n ps (seq 0 n).

Section Run.
Context (E : Env).

Fixpoint serveAll (cs : list Call) (w : world E) : list Outcome * world E :=
  match cs with
  | [] => ([], w)
  | c :: cs' =>
      let '(o, w1) := serve E c w in
      let '(os, w2) := serveAll cs' w1 in
      (o :: os, w2)
  end.

(** [n] numbers drawn one after the other. *)
Fixpoint drawAll (n : nat) (w : world E) : list jsstring * world E :=
  match n with
  | 0 => ([], w)
  | S n' =>
      let '(r, w1) := random E w in
      let '(rs, w2) := drawAll n' w1 in
      (r :: rs, w2)
  end.

Fixpoint run {A} (p : Proc A) (w : world E) : A * world E * list Event :=
  match p with
  | Ret a => (a, w, [])
  | Await c k =>
      let '(o, w1) := serve E c w in
      let '(a, w2, tr) := run (k o) w1 in
      (a, w2, Called c o :: tr)
  | AwaitAll cs k =>
      let '(os, w1) := serveAll cs w in
      let '(ps, w2) := picks E (length cs) w1 in
      let '(a, w3, tr) := run (k os (completionOrder ps (length cs))) w2 in
      (a, w3, zip_with Called cs os ++ tr)
  | Confirm msg k =>
      let '(b, w1) := answer E msg w in
      let '(a, w2, tr) := run (k b) w1 in
      (a, w2, Asked msg b :: tr)
  | MathRandom k =>
      let '(r, w1) := random E w in
      let '(a, w2, tr) := run (k r) w1 in
      (a, w2, Drew r :: tr)
  | Emit out k =>
      let '(a, w1, tr) := run k w in
      (a, w1, Did out :: tr)
  end.

End Run.

(** Projections of a trace. *)
Definition calls (tr : list Event) : list Call :=
  omap (λ e, match e with Called c _ => Some c | _ => None end) tr.

Definition outputs (tr : list Event) : list Output :=
  omap (λ e, match e with Did out => Some out | _ => None end) tr.

(** The upload requests of a trace: file, object name and outcome. *)
Definition uploads (tr : list Event) : list (File.t * jsstring * Outcome) :=
  omap (λ e, match e with
             | Called (StorageUpload path file) o => Some (file, path, o)
             | _ => None
             end) tr.

End Eff.

(* ===================================================================== *)
(** ** components/FileUpload.tsx                                          *)
(* ===================================================================== *)

Module FileUpload.
Import JS Eff.

Definition MAX_FILE_SIZE : N := 25 * 1024 * 1024.

Definition ALLOWED_FILE_TYPES : list (jsstring * list jsstring) :=
  [ (str "application/pdf", [str ".pdf"]);
    (str "application/vnd.ms-powerpoint", [str ".ppt"]);
    (str "application/vnd.openxmlformats-officedocument.presentationml.presentation",
     [str ".pptx"]);
    (str "video/*", [str ".mp4"; str ".webm"]);
    (str "application/msword", [str ".doc"]);
    (str "application/vnd.openxmlformats-officedocument.wordprocessingml.document",
     [str ".docx"]) ].

(** The component's own state ([useState]). *)
Record State := mkState {
  error : option jsstring;
  uploading : bool;
  uploadProgress : gmap jsstring N
}.

Definition setError (v : option jsstring) (st : State) : State :=
  mkState v (uploading st) (uploadProgress st).
Definition setUploading (v : bool) (st : State) : State :=
  mkState (error st) v (uploadProgress st).
Definition setUploadProgress (f : gmap jsstring N → gmap jsstring N) (st : State) : State :=
  mkState (error st) (uploading st) (f (uploadProgress st)).

(** The callbacks received as props, acting on the state [P] of the parent.
    [onRemoveFile] is optional. *)
Record Props (P : Type) := mkProps {
  onUploadComplete : list jsstring → P → P;
  onRemoveFile : option (jsstring → P → P)
}.
Arguments mkProps {P} _ _.
Arguments onUploadComplete {P} _ _ _.
Arguments onRemoveFile {P} _.

(** *** The drop zone in front of [onDrop] *)

Definition toLowerCase (s : jsstring) : jsstring :=
  (λ c, if (65 <=? c)%N && (c <=? 90)%N then (c + 32)%N else c) <$> s.

Definition endsWith (s suffix : jsstring) : bool :=
  bool_decide (suffix `suffix_of` s).

Definition startsWith (s prefix : jsstring) : bool :=
  bool_decide (prefix `prefix_of` s).

(** Modelled from the spec: the matching of one file against one entry of
    the accept table is done by the drop-zone library, which is not part of
    the sources; the spec rejects a file whose MIME type and extension both
    fail to match the allowed set.  A MIME entry ending in [/*] matches every
    type below it, any other entry matches itself, an extension matches the
    end of the file name; upper and lower case are not distinguished. *)
Definition mimeMatches (pattern mime : jsstring) : bool :=
  if endsWith pattern (str "/*")
  then startsWith mime (take (length pattern - 1) pattern)
  else bool_decide (pattern = mime).

Definition entryMatches (f : File.t) (entry : jsstring * list jsstring) : bool :=
  mimeMatches (entry.1) (toLowerCase (File.type f))
  || existsb (endsWith (toLowerCase (File.name f))) (entry.2).

Definition typeAllowed (f : File.t) : bool :=
  existsb (entryMatches f) ALLOWED_FILE_TYPES.

(** [file.size > MAX_FILE_SIZE] *)
Definition tooLarge (f : File.t) : bool := (MAX_FILE_SIZE <? File.size f)%N.

(** Modelled from the spec: the zone configured by
    [useDropzone({ onDrop, accept: ALLOWED_FILE_TYPES, maxSize: MAX_FILE_SIZE,
    disabled: uploading })] is library code; it rejects a file whose size
    exceeds the ceiling or whose type does not match the allowed set, hands
    the other files of the batch to [onDrop], and ignores a drop while it is
    disabled. *)
Definition zoneAccepts (f : File.t) : bool := typeAllowed f && negb (tooLarge f).

(** The two gates a dropped file passes before an upload job is started for
    it: the zone, then the size filter at the head of [onDrop]. *)
Definition validate (f : File.t) : bool := zoneAccepts f && negb (tooLarge f).

Definition useDropzone (st : State) (batch : list File.t) : option (list File.t) :=
  if uploading st then None else Some (filter zoneAccepts batch).

(** *** [onDrop] *)

Definition exceedsMessage (f : File.t) : jsstring :=
  str "File " ++ [34%N] ++ File.name f ++ [34%N] ++ str " exceeds 25MB limit".

Definition failedMessage (f : File.t) : jsstring :=
  str "Failed to upload " ++ File.name f.

Definition errorUploading (f : File.t) : jsstring :=
  str "Error uploading " ++ File.name f ++ str ":".

(** [file.name.split('.').pop()] *)
Definition fileExt (name : jsstring) : option jsstring := pop (split dot name).

(** [`${Math.random()}.${fileExt}`], with [r] the text of the number drawn. *)
Definition fileName (r : jsstring) (name : jsstring) : jsstring :=
  r ++ str "." ++ template (fileExt name).

(** [url.split('/').pop()], the object name both removal paths derive. *)
Definition objectName (url : jsstring) : option jsstring := pop (split slash url).

Section WithClient.
(** The address the storage client was created with. *)
Variable supabaseUrl : jsstring.

(** Modelled from the spec: [getPublicUrl] belongs to the storage client,
    which is not part of the sources; the spec has the URL formed
    deterministically from the storage location and the object name.  The
    client joins the address of the service, the bucket and the object name
    and hands out the result of [encodeURI] on that text, so a code unit of
    the object name that a URL cannot hold as it is arrives percent-encoded
    in the URL's trailing path segment.  ([filePath] begins with the digits
    of the number drawn, so the client's removal of leading slashes from a
    path does not apply.) *)
Definition getPublicUrl (path : jsstring) : jsstring :=
  encodeURI
    (supabaseUrl ++ str "/storage/v1/object/public/notes-attachments/" ++ path).

(** One upload job after its request has settled: the value the job's
    promise resolves to. *)
Definition jobResult (job : File.t * jsstring * Supabase.Outcome) : option jsstring :=
  let '(file, filePath, o) := job in
  match Supabase.checked o with
  | inr _ => Some (getPublicUrl filePath)
  | inl _ => None
  end.

(** ... what it writes to the console when the upload failed ... *)
Definition failureOf (job : File.t * jsstring * Supabase.Outcome) : option Output :=
  let '(file, filePath, o) := job in
  match Supabase.checked o with
  | inr _ => None
  | inl e => Some (ConsoleError (errorUploading file) e)
  end.

(** ... and what resuming the job does to the component. *)
Definition resume (job : File.t * jsstring * Supabase.Outcome) (st : State)
  : Proc State :=
  let '(file, filePath, o) := job in
  match Supabase.checked o with
  | inr _ => mret (setUploadProgress (λ prev, <[File.name file := 100%N]> prev) st)
  | inl e =>
      emit (ConsoleError (errorUploading file) e);;
      mret (setError (Some (failedMessage file)) st)
  end.

(** The jobs resumed one after the other, in the given order. *)
Fixpoint resumeAll (jobs : list (File.t * jsstring * Supabase.Outcome))
    (order : list nat) (st : State) : Proc State :=
  match order with
  | [] => mret st
  | i :: order' =>
      match jobs !! i with
      | Some job => st' ← resume job st; resumeAll jobs order' st'
      | None => resumeAll jobs order' st
      end
  end.

(** The size filter at the head of [onDrop], with the message it leaves. *)
Definition validFilesOf (acceptedFiles : list File.t) : list File.t :=
  filter (λ f, negb (tooLarge f)) acceptedFiles.

Definition reportTooLarge (acceptedFiles : list File.t) (st : State) : State :=
  foldl (λ st f, if tooLarge f then setError (Some (exceedsMessage f)) st else st)
        st acceptedFiles.

(** [onDrop].  Each job draws its number and sends its request before it
    first suspends, so all draws and requests of a batch precede the first
    response; the program makes the draws, then sends the requests, then
    resumes the jobs in the order chosen by the scheduler.  No job lets an
    exception escape and the page's callback throws none, so the outer
    [catch] of the source is never entered; its [finally] is the last
    [setUploading (false)]. *)
Definition onDrop {P} (props : Props P) (st : State) (parent : P)
    (acceptedFiles : list File.t) : Proc (State * P) :=
  let st := setUploadProgress (λ _, ∅) (setUploading true (setError None st)) in
  let validFiles := validFilesOf acceptedFiles in
  let st := reportTooLarge acceptedFiles st in
  if bool_decide (length validFiles = 0) then
    mret (setUploading false (setUploading false st), parent)
  else
    paths ← forEach (λ file, r ← mathRandom; mret (fileName r (File.name file)))
                    validFiles;
    settled ← awaitAll (zip_with Supabase.StorageUpload paths validFiles);
    let jobs := zip (zip validFiles paths) settled.1 in
    st ← resumeAll jobs settled.2 st;
    let urls := jobResult <$> jobs in
    let validUrls := omap (λ url, url) urls in
    let parent :=
      if bool_decide (0 < length validUrls)
      then onUploadComplete props validUrls parent
      else parent in
    mret (setUploading false st, parent).

(** A batch dropped on the zone. *)
Definition drop {P} (props : Props P) (st : State) (parent : P)
    (batch : list File.t) : Proc (State * P) :=
  match useDropzone st batch with
  | Some acceptedFiles => onDrop props st parent acceptedFiles
  | None => mret (st, parent)
  end.

End WithClient.

(** *** [handleRemoveFile] *)

Definition removeFailedMessage : jsstring :=
  str "Failed to remove file. Please try again.".

Definition handleRemoveFile {P} (props : Props P) (st : State) (parent : P)
    (url : jsstring) : Proc (State * P) :=
  match onRemoveFile props with
  | None => mret (st, parent)
  | Some onRemoveFile =>
      let fileName := objectName url in
      if truthy fileName then
        o ← await (Supabase.StorageRemove [fileName]);
        match o with
        | Supabase.Rejected e =>
            emit (ConsoleError (str "Error removing file:") e);;
            mret (setError (Some removeFailedMessage) st, parent)
        | Supabase.Fulfilled _ => mret (st, onRemoveFile url parent)
        end
      else mret (st, onRemoveFile url parent)
  end.

End FileUpload.

(* ===================================================================== *)
(** ** pages/NotePage (second half of pages/Dashboard.tsx)                *)
(* ===================================================================== *)

Module NotePage.
Import JS Eff.

(** [session.user.id] of the auth context. *)
Record User := mkUser { uid : jsstring }.
Record Session := mkSession { user : User }.

(** The route parameter [id], the auth session and the component's own
    state. *)
Record State := mkState {
  id : jsstring;
  session : option Session;
  note : option Note.t;
  loading : bool;
  saving : bool;
  showUpload : bool;
  error : option jsstring
}.

Definition setNote (f : option Note.t → option Note.t) (st : State) : State :=
  mkState (id st) (session st) (f (note st)) (loading st) (saving st)
          (showUpload st) (error st).
Definition setLoading (v : bool) (st : State) : State :=
  mkState (id st) (session st) (note st) v (saving st) (showUpload st) (error st).
Definition setSaving (v : bool) (st : State) : State :=
  mkState (id st) (session st) (note st) (loading st) v (showUpload st) (error st).
Definition setShowUpload (v : bool) (st : State) : State :=
  mkState (id st) (session st) (note st) (loading st) (saving st) v (error st).
Definition setError (v : option jsstring) (st : State) : State :=
  mkState (id st) (session st) (note st) (loading st) (saving st) (showUpload st) v.

Definition new : jsstring := str "new".

Definition emptyNote : Note.t :=
  Note.mk new [] [] [] [] [] None.

(** The component when it is first rendered for route [/notes/:id]. *)
Definition initial (id : jsstring) (session : option Session) : State :=
  mkState id session None true false false None.

Definition loadFailedMessage : jsstring := str "Failed to load note. Please try again.".
Definition saveFailedMessage : jsstring := str "Failed to save note. Please try again.".
Definition deleteFailedMessage : jsstring := str "Failed to delete note. Please try again.".

Definition fetchNote (st : State) : Proc State :=
  o ← await (Supabase.NotesSelectSingle (id st));
  match Supabase.checked o with
  | inr r => mret (setLoading false (setNote (λ _, Supabase.data r) st))
  | inl e =>
      emit (ConsoleError (str "Error fetching note:") e);;
      mret (setLoading false (setError (Some loadFailedMessage) st))
  end.

(** The effect run when the component mounts. *)
Definition mount (st : State) : Proc State :=
  if bool_decide (id st ≠ new) then fetchNote st
  else mret (setLoading false (setNote (λ _, Some emptyNote) st)).

(** The object [noteData] built by [handleSave]. *)
Definition noteData (n : Note.t) (s : Session) : NoteData.t :=
  NoteData.mk (trim (Note.title n)) (Note.content n) (trim (Note.category n))
              (Note.tags n) (Note.attachments n) (uid (user s)).

Definition saveCall (id : jsstring) (data : NoteData.t) : Supabase.Call :=
  if bool_decide (id = new) then Supabase.NotesInsert [data]
  else Supabase.NotesUpdate data id.

Definition handleSave (st : State) : Proc State :=
  match note st, session st with
  | Some n, Some s =>
      let st := setError None (setSaving true st) in
      o ← await (saveCall (id st) (noteData n s));
      match Supabase.checked o with
      | inr _ =>
          emit (Navigate (str "/"));;
          mret (setSaving false st)
      | inl e =>
          emit (ConsoleError (str "Error saving note:") e);;
          mret (setSaving false (setError (Some saveFailedMessage) st))
      end
  | _, _ => mret st
  end.

Definition confirmDelete : jsstring := str "Are you sure you want to delete this note?".

(** The [catch] block of [handleDelete]. *)
Definition deleteFailed (e : Supabase.Err) (st : State) : Proc State :=
  emit (ConsoleError (str "Error deleting note:") e);;
  mret (setError (Some deleteFailedMessage) st).

(** The second half of the [try] block of [handleDelete]: the record. *)
Definition deleteRecord (st : State) : Proc State :=
  o ← await (Supabase.NotesDelete (id st));
  match Supabase.checked o with
  | inr _ => emit (Navigate (str "/"));; mret st
  | inl e => deleteFailed e st
  end.

Definition handleDelete (st0 : State) : Proc State :=
  yes ← confirm confirmDelete;
  if negb yes then mret st0
  else
    let st := setError None st0 in
    match note st0 with
    | Some n =>
        if bool_decide (0 < length (Note.attachments n)) then
          let fileNames := FileUpload.objectName <$> Note.attachments n in
          o ← await (Supabase.StorageRemove fileNames);
          match Supabase.checked o with
          | inr _ => deleteRecord st
          | inl storageError => deleteFailed storageError st
          end
        else deleteRecord st
    | None => deleteRecord st
    end.

Definition handleUploadComplete (urls : list jsstring) (st : State) : State :=
  setShowUpload false
    (setNote (λ prev,
       match prev with
       | None => None
       | Some n =>
           Some (Note.mk (Note.id n) (Note.title n) (Note.content n)
                         (Note.category n) (Note.tags n)
                         (Note.attachments n ++ urls) (Note.user_id n))
       end) st).

Definition handleRemoveFile (urlToRemove : jsstring) (st : State) : State :=
  setNote (λ prev,
    match prev with
    | None => None
    | Some n =>
        Some (Note.mk (Note.id n) (Note.title n) (Note.content n)
                      (Note.category n) (Note.tags n)
                      (filter (λ url, url ≠ urlToRemove) (Note.attachments n))
                      (Note.user_id n))
    end) st.

(** The props with which the page renders [<FileUpload>]. *)
Definition uploadProps : FileUpload.Props State :=
  FileUpload.mkProps handleUploadComplete (Some handleRemoveFile).

(** The draft's attachment list as the page shows it ([note?.attachments]). *)
Definition draftAttachments (st : State) : list jsstring :=
  match note st with
  | Some n => Note.attachments n
  | None => []
  end.

End NotePage.

(* ===================================================================== *)
(** ** A concrete environment: the tables of supabase/migrations          *)
(* ===================================================================== *)

Module Backend.
Import JS Supabase.

(** A transport failure injected into the next request: the request never
    reaches the service, and its promise either resolves to an error reply
    or rejects. *)
Inductive Fault :=
| NoFault
| ErrorReply (e : Err)
| Reject (e : Err).

(** Modelled from the spec: the persistence service and the object storage
    are external collaborators (sections 4.1 and 6); what the sources fix is
    their schema in supabase/migrations: table [notes] keyed by [id] with
    default [gen_random_uuid()], bucket [notes-attachments], the row policies
    [auth.uid() = user_id] on [notes] and [TO authenticated] on the bucket.
    Rows are filtered by owner for read, update and delete; loading or
    updating a record the caller cannot see fails, deleting it changes
    nothing.  The remaining fields feed the browser side of the environment:
    the user's answers to [window.confirm], the texts [Math.random] hands out
    and the scheduler's picks. *)
Record World := mkWorld {
  auth_uid : option jsstring;
  notes : gmap jsstring Note.t;
  objects : gmap jsstring File.t;
  uuid : nat → jsstring;
  generated : nat;
  faults : list Fault;
  answers : list bool;
  draws : list jsstring;
  resumptions : list (list nat)
}.

Definition withNotes (f : gmap jsstring Note.t → gmap jsstring Note.t)
    (g : nat) (w : World) : World :=
  mkWorld (auth_uid w) (f (notes w)) (objects w) (uuid w) g (faults w)
          (answers w) (draws w) (resumptions w).

Definition withObjects (f : gmap jsstring File.t → gmap jsstring File.t)
    (w : World) : World :=
  mkWorld (auth_uid w) (notes w) (f (objects w)) (uuid w) (generated w) (faults w)
          (answers w) (draws w) (resumptions w).

Definition withFaults (fs : list Fault) (w : World) : World :=
  mkWorld (auth_uid w) (notes w) (objects w) (uuid w) (generated w) fs
          (answers w) (draws w) (resumptions w).

Definition withAnswers (a : list bool) (w : World) : World :=
  mkWorld (auth_uid w) (notes w) (objects w) (uuid w) (generated w) (faults w)
          a (draws w) (resumptions w).

Definition withDraws (d : list jsstring) (w : World) : World :=
  mkWorld (auth_uid w) (notes w) (objects w) (uuid w) (generated w) (faults w)
          (answers w) d (resumptions w).

Definition withResumptions (r : list (list nat)) (w : World) : World :=
  mkWorld (auth_uid w) (notes w) (objects w) (uuid w) (generated w) (faults w)
          (answers w) (draws w) r.

Definition replyError (msg : string) : Outcome :=
  Fulfilled (mkReply None (Some (mkErr (str msg)))).

(** [auth.uid() = user_id] *)
Definition owns (w : World) (user_id : option jsstring) : bool :=
  match auth_uid w with
  | Some u => bool_decide (user_id = Some u)
  | None => false
  end.

(** The row with key [id], if the policies let the caller see it. *)
Definition visible (w : World) (id : jsstring) : option Note.t :=
  match notes w !! id with
  | Some row => if owns w (Note.user_id row) then Some row else None
  | None => None
  end.

Definition rowOf (id : jsstring) (d : NoteData.t) : Note.t :=
  Note.mk id (NoteData.title d) (NoteData.content d) (NoteData.category d)
          (NoteData.tags d) (NoteData.attachments d) (Some (NoteData.user_id d)).

(** [INSERT] of one row: the policy check, then the fresh key. *)
Definition insertRow (d : NoteData.t) (w : World) : option World :=
  if owns w (Some (NoteData.user_id d)) then
    let id := uuid w (generated w) in
    match notes w !! id with
    | Some _ => None
    | None => Some (withNotes (λ t, <[id := rowOf id d]> t) (S (generated w)) w)
    end
  else None.

Fixpoint insertRows (ds : list NoteData.t) (w : World) : option World :=
  match ds with
  | [] => Some w
  | d :: ds' =>
      match insertRow d w with
      | Some w' => insertRows ds' w'
      | None => None
      end
  end.

Definition removeObjects (names : list (option jsstring))
    (t : gmap jsstring File.t) : gmap jsstring File.t :=
  foldr (λ name t, match name with Some n => delete n t | None => t end) t names.

(** The service handling one request that reached it. *)
Definition process (c : Call) (w : World) : Outcome * World :=
  match c with
  | NotesSelectSingle id =>
      match visible w id with
      | Some row => (Fulfilled (mkReply (Some row) None), w)
      | None => (replyError "no rows returned", w)
      end
  | NotesInsert rows =>
      match insertRows rows w with
      | Some w' => (ok, w')
      | None => (replyError "insert rejected", w)
      end
  | NotesUpdate d id =>
      match visible w id with
      | Some _ =>
          if owns w (Some (NoteData.user_id d))
          then (ok, withNotes (λ t, <[id := rowOf id d]> t) (generated w) w)
          else (replyError "access denied", w)
      | None => (replyError "not found", w)
      end
  | NotesDelete id =>
      match visible w id with
      | Some _ => (ok, withNotes (λ t, delete id t) (generated w) w)
      | None => (ok, w)
      end
  | StorageUpload path file =>
      match auth_uid w, objects w !! path with
      | Some _, None => (ok, withObjects (λ t, <[path := file]> t) w)
      | _, _ => (replyError "upload rejected", w)
      end
  | StorageRemove names =>
      match auth_uid w with
      | Some _ => (ok, withObjects (removeObjects names) w)
      | None => (ok, w)
      end
  end.

Definition serve (c : Call) (w : World) : Outcome * World :=
  match faults w with
  | [] => process c w
  | NoFault :: fs => process c (withFaults fs w)
  | ErrorReply e :: fs => (Fulfilled (mkReply None (Some e)), withFaults fs w)
  | Reject e :: fs => (Rejected e, withFaults fs w)
  end.

Definition answer (msg : jsstring) (w : World) : bool * World :=
  (hd true (answers w), withAnswers (tl (answers w)) w).

Definition random (w : World) : jsstring * World :=
  (hd (str "0") (draws w), withDraws (tl (draws w)) w).

Definition picks (n : nat) (w : World) : list nat * World :=
  (hd [] (resumptions w), withResumptions (tl (resumptions w)) w).

Definition env : Eff.Env := Eff.mkEnv World serve answer random picks.

(** A world in which [u] is signed in and nothing else has happened. *)
Definition signedIn (u : jsstring) (uuid : nat → jsstring) : World :=
  mkWorld (Some u) ∅ ∅ uuid 0 [] [] [] [].

End Backend.

(* ===================================================================== *)
(** ** A scripted environment                                             *)
(* ===================================================================== *)

(** The outcomes of the requests to come are listed in advance; the user
    confirms every dialog, the generator always hands out [0.5] and
    concurrent jobs are resumed in the order given by [order]. *)
Module Scripted.
Import JS Supabase.

Definition serve (c : Call) (w : list Outcome) : Outcome * list Outcome :=
  (hd ok w, tl w).

Definition env (order : list nat) : Eff.Env :=
  Eff.mkEnv (list Outcome) serve (λ _ w, (true, w)) (λ w, (str "0.5", w))
            (λ _ w, (order, w)).

Definition denied : Outcome :=
  Fulfilled (mkReply None (Some (mkErr (str "permission denied")))).

Definition offline : Outcome := Rejected (mkErr (str "network unreachable")).

End Scripted.

(* ===================================================================== *)
(** ** Sample data                                                        *)
(* ===================================================================== *)

Module Examples.
Import JS.

Definition supabaseUrl : jsstring := str "https://project.supabase.co".

Definition alice : NotePage.Session := NotePage.mkSession (NotePage.mkUser (str "alice")).

Definition examPdf : File.t := File.mk (str "exam.pdf") (2 * 1024 * 1024) (str "application/pdf").

Definition examUrl : jsstring :=
  FileUpload.getPublicUrl supabaseUrl (FileUpload.fileName (str "0.5") (str "exam.pdf")).

Definition slidesPptx : File.t :=
  File.mk (str "slides.pptx") (3 * 1024 * 1024)
          (str "application/vnd.openxmlformats-officedocument.presentationml.presentation").

Definition lectureMov : File.t := File.mk (str "lecture.mov") (20 * 1024 * 1024) (str "video/quicktime").

Definition hugeMp4 : File.t := File.mk (str "huge.mp4") (26 * 1024 * 1024) (str "video/mp4").

Definition notesTxt : File.t := File.mk (str "notes.txt") 100 (str "text/plain").

(** A PDF whose name has a space and no dot. *)
Definition myNotes : File.t := File.mk (str "My Notes") 1024 (str "application/pdf").

(** A batch with an oversized file and a file of the wrong type. *)
Definition batch : list File.t := [examPdf; hugeMp4; notesTxt; lectureMov; slidesPptx].

(** The upload component at rest. *)
Definition idle : FileUpload.State := FileUpload.mkState None false ∅.

(** A new note being edited, with one attachment already uploaded. *)
Definition draft : Note.t :=
  Note.mk NotePage.new (str " Midterm Review ") (str "# Cells") (str "Biology")
          [str "exam"] [examUrl] None.

Definition newPage : NotePage.State :=
  NotePage.mkState NotePage.new (Some alice) (Some draft) false false false None.

(** The page of a stored note. *)
Definition noteId : jsstring := str "7f3c".

Definition stored : Note.t :=
  Note.mk noteId (str "Midterm Review") (str "# Cells") (str "Biology")
          [str "exam"] [examUrl] (Some (str "alice")).

Definition storedPage : NotePage.State :=
  NotePage.mkState noteId (Some alice) (Some stored) false false false None.

(** The service with Alice signed in: an empty table whose next generated
    key is [noteId], and a table that holds the stored note. *)
Definition emptyWorld : Backend.World := Backend.signedIn (str "alice") (λ _, noteId).

Definition world : Backend.World :=
  Backend.withNotes (λ t, <[noteId := stored]> t) 1 emptyWorld.

(** The same service when the next request meets a transport failure. *)
Definition outage : Backend.World :=
  Backend.withFaults [Backend.ErrorReply (Supabase.mkErr (str "service unavailable"))]
                     world.

(** The page of a note opened without a session. *)
Definition signedOutPage : NotePage.State :=
  NotePage.mkState noteId None (Some stored) false false false None.

End Examples.

(* ===================================================================== *)
(** ** The note page: typing into the draft                               *)
(* ===================================================================== *)

(** The [onChange] handlers that the note page passes to the title input,
    the category input and the editor. *)
Module NoteInputs.
Import JS NotePage.

(** [setNote(prev => prev ? {...prev, title: e.target.value} : null)] *)
Definition titleChanged (value : jsstring) (st : State) : State :=
  setNote (λ prev,
    match prev with
    | None => None
    | Some n =>
        Some (Note.mk (Note.id n) value (Note.content n) (Note.category n)
                      (Note.tags n) (Note.attachments n) (Note.user_id n))
    end) st.

(** [setNote(prev => prev ? {...prev, category: e.target.value} : null)] *)
Definition categoryChanged (value : jsstring) (st : State) : State :=
  setNote (λ prev,
    match prev with
    | None => None
    | Some n =>
        Some (Note.mk (Note.id n) (Note.title n) (Note.content n) value
                      (Note.tags n) (Note.attachments n) (Note.user_id n))
    end) st.

(** [value || ''] for the editor's [string | undefined]. *)
Definition orEmpty (value : option jsstring) : jsstring :=
  match value with
  | Some (c :: s) => c :: s
  | _ => []
  end.

(** [setNote(prev => prev ? {...prev, content: value || ''} : null)] *)
Definition contentChanged (value : option jsstring) (st : State) : State :=
  setNote (λ prev,
    match prev with
    | None => None
    | Some n =>
        Some (Note.mk (Note.id n) (Note.title n) (orEmpty value) (Note.category n)
                      (Note.tags n) (Note.attachments n) (Note.user_id n))
    end) st.

End NoteInputs.

(* ===================================================================== *)
(** ** pages/Dashboard (first half of pages/Dashboard.tsx)                *)
(* ===================================================================== *)

Module Dashboard.
Import JS.

(** The [Note] interface of the dashboard. *)
Record Note := mkNote {
  id : jsstring;
  title : jsstring;
  category : jsstring;
  created_at : jsstring
}.

Record State := mkState {
  notes : list Note;
  loading : bool;
  searchTerm : jsstring
}.

Definition setNotes (v : list Note) (st : State) : State :=
  mkState v (loading st) (searchTerm st).
Definition setLoading (v : bool) (st : State) : State :=
  mkState (notes st) v (searchTerm st).
Definition setSearchTerm (v : jsstring) (st : State) : State :=
  mkState (notes st) (loading st) v.

(** The dashboard when it is first rendered. *)
Definition initial : State := mkState [] true [].

(** How the promise of
    [from('notes').select('*').order('created_at', { ascending: false })]
    settles. *)
Inductive Listing :=
| Resolved (data : option (list Note)) (error : option Supabase.Err)
| Rejected (e : Supabase.Err).

(** [fetchNotes], given the way its request settles: the new state and what
    is written to the console. *)
Definition fetchNotes (o : Listing) (st : State) : State * list Eff.Output :=
  match o with
  | Resolved data None =>
      (setLoading false (setNotes (default [] data) st), [])
  | Resolved _ (Some e) | Rejected e =>
      (setLoading false st, [Eff.ConsoleError (str "Error fetching notes:") e])
  end.

(** [s.includes(t)]: [t] occurs in [s]. *)
Fixpoint includes (s t : jsstring) : bool :=
  bool_decide (t `prefix_of` s)
  || match s with
     | [] => false
     | _ :: s' => includes s' t
     end.

Section WithLowerCase.
(** [String.prototype.toLowerCase], taken as it is: the case mapping of the
    Unicode tables is not reproduced here. *)
Variable toLowerCase : jsstring → jsstring.

(** The predicate of [filteredNotes]. *)
Definition shown (term : jsstring) (note : Note) : bool :=
  includes (toLowerCase (title note)) (toLowerCase term)
  || includes (toLowerCase (category note)) (toLowerCase term).

Definition filteredNotes (st : State) : list Note :=
  filter (λ note, shown (searchTerm st) note) (notes st).

End WithLowerCase.

End Dashboard.

(** Sample data for the dashboard. *)
Module DashboardExamples.
Import JS.

Definition biology : Dashboard.Note :=
  Dashboard.mkNote (str "7f3c") (str "Midterm Review") (str "Biology") (str "2025-02-01").

Definition algebra : Dashboard.Note :=
  Dashboard.mkNote (str "91aa") (str "Groups") (str "Algebra") (str "2025-01-20").

Definition listed : Dashboard.State :=
  Dashboard.mkState [biology; algebra] false (str "bio").

End DashboardExamples.

(** The page of a stored note without attachments. *)
Module PlainExamples.
Import JS.

Definition plain : Note.t :=
  Note.mk Examples.noteId (str "Groups") (str "# Axioms") (str "Algebra")
          [] [] (Some (str "alice")).

Definition plainPage : NotePage.State :=
  NotePage.mkState Examples.noteId (Some Examples.alice) (Some plain)
                   false false false None.

End PlainExamples.

(* ===================================================================== *)
(** ** Tactics                                                            *)
(* ===================================================================== *)

(** Closes a goal from a hypothesis that places an event in a concrete trace
    in which it does not occur. *)
Ltac absent_from_trace H :=
  exfalso; set_unfold in H;
  repeat (destruct H as [H|H]; [discriminate H|]);
  first [discriminate H | exact H].

(* ===================================================================== *)
(** * Properties                                                          *)
(* ===================================================================== *)

(** ** Programs and their runs *)

Section RunFacts.
Import Eff.
Context (E : Env).

Lemma run_bind {A B} (p : Proc A) (f : A → Proc B) (w : world E) :
  run E (bind p f) w =
  let '(a, w1, t1) := run E p w in
  let '(b, w2, t2) := run E (f a) w1 in
  (b, w2, t1 ++ t2).
Proof.
  revert w. induction p as [a|c k IH|cs k IH|msg k IH|k IH|out k IH]; intros w; simpl.
  - destruct (run E (f a) w) as [[b w2] t2]. done.
  - destruct (serve E c w) as [o w1]. rewrite IH.
    destruct (run E (k o) w1) as [[a w2] t1].
    destruct (run E (f a) w2) as [[b w3] t2]. done.
  - destruct (serveAll E cs w) as [os w1].
    destruct (picks E (length cs) w1) as [ps w2]. rewrite IH.
    destruct (run E (k os _) w2) as [[a w3] t1].
    destruct (run E (f a) w3) as [[b w4] t2]. by rewrite app_assoc.
  - destruct (answer E msg w) as [b w1]. rewrite IH.
    destruct (run E (k b) w1) as [[a w2] t1].
    destruct (run E (f a) w2) as [[b' w3] t2]. done.
  - destruct (random E w) as [r w1]. rewrite IH.
    destruct (run E (k r) w1) as [[a w2] t1].
    destruct (run E (f a) w2) as [[b w3] t2]. done.
  - rewrite IH. destruct (run E k w) as [[a w1] t1].
    destruct (run E (f a) w1) as [[b w2] t2]. done.
Qed.

Lemma run_mbind {A B} (p : Proc A) (f : A → Proc B) (w : world E) :
  run E (p ≫= f) w =
  let '(a, w1, t1) := run E p w in
  let '(b, w2, t2) := run E (f a) w1 in
  (b, w2, t1 ++ t2).
Proof. apply run_bind. Qed.

Lemma run_awaitAll (cs : list Supabase.Call) (w : world E) :
  run E (awaitAll cs) w =
  let os := (serveAll E cs w).1 in
  let w1 := (serveAll E cs w).2 in
  ((os, completionOrder (picks E (length cs) w1).1 (length cs)),
   (picks E (length cs) w1).2, zip_with Called cs os).
Proof.
  simpl. destruct (serveAll E cs w) as [os w1]. simpl.
  destruct (picks E (length cs) w1) as [ps w2]. simpl. by rewrite app_nil_r.
Qed.

Lemma serveAll_length (cs : list Supabase.Call) (w : world E) :
  length (serveAll E cs w).1 = length cs.
Proof.
  revert w. induction cs as [|c cs IH]; intros w; simpl; [done|].
  destruct (serve E c w) as [o w1]. specialize (IH w1).
  destruct (serveAll E cs w1) as [os w2]. simpl in *. by rewrite IH.
Qed.

End RunFacts.

Lemma schedule_Permutation (ps pending : list nat) :
  Eff.schedule (length pending) ps pending ≡ₚ pending.
Proof.
  remember (length pending) as n eqn:Hn.
  revert ps pending Hn. induction n as [|n IH]; intros ps pending Hn; simpl.
  - by destruct pending.
  - assert (Hlt : hd 0 ps `mod` length pending < length pending).
    { apply Nat.mod_upper_bound. lia. }
    destruct (lookup_lt_is_Some_2 _ _ Hlt) as [j Hj]. rewrite Hj.
    etrans; [|symmetry; apply (delete_Permutation pending _ j Hj)].
    constructor. apply IH. rewrite length_delete; [lia|]. eauto.
Qed.

Lemma completionOrder_Permutation (ps : list nat) (n : nat) :
  Eff.completionOrder ps n ≡ₚ seq 0 n.
Proof.
  unfold Eff.completionOrder.
  pose proof (schedule_Permutation ps (seq 0 n)) as H.
  by rewrite length_seq in H.
Qed.

(** ** The note page: saving *)

Section Save.
Import JS Supabase Eff NotePage.
Context (E : Env).

(** The run of [handleSave] on a loaded draft with a session: one request,
    then the branch chosen by its outcome. *)
Lemma run_handleSave (st : State) (n : Note.t) (s : Session) (w : world E) :
  note st = Some n → session st = Some s →
  let c := saveCall (id st) (noteData n s) in
  let o := (serve E c w).1 in
  let w' := (serve E c w).2 in
  let st1 := setError None (setSaving true st) in
  run E (handleSave st) w =
  match checked o with
  | inr _ => (setSaving false st1, w', [Called c o; Did (Navigate (str "/"))])
  | inl e =>
      (setSaving false (setError (Some saveFailedMessage) st1), w',
       [Called c o; Did (ConsoleError (str "Error saving note:") e)])
  end.
Proof.
  intros Hn Hs. unfold handleSave. rewrite Hn, Hs. simpl.
  destruct (serve E _ w) as [o w1]. simpl.
  destruct (checked o) as [e|r]; reflexivity.
Qed.

(** The guard at the head of [handleSave]. *)
Lemma handleSave_guard (st : State) :
  note st = None ∨ session st = None → handleSave st = mret st.
Proof.
  intros [H|H]; unfold handleSave; rewrite H; [done|].
  by destruct (note st).
Qed.

(** C10. When no draft is loaded or no session is present, [handleSave]
    returns at once: it sends no request, produces no output, and leaves
    the whole state of the page (draft, saving flag, error message) and the
    world as they were. *)
Theorem handleSave_without_draft_or_session (st : State) (w : world E) :
  note st = None ∨ session st = None →
  run E (handleSave st) w = (st, w, []).
Proof. intros H. by rewrite handleSave_guard. Qed.

(** C5. On a loaded draft with a session, [handleSave] sends exactly one
    request.  Its payload carries the draft's title and category trimmed,
    and the draft's content, tags and attachment list as they are; the
    request is an insert when the route identifier is ['new'] and an update
    of that identifier otherwise. *)
Theorem handleSave_request (st : State) (n : Note.t) (s : Session) (w : world E) :
  note st = Some n → session st = Some s →
  let payload :=
    NoteData.mk (trim (Note.title n)) (Note.content n) (trim (Note.category n))
                (Note.tags n) (Note.attachments n) (uid (user s)) in
  calls (run E (handleSave st) w).2 =
  [ if bool_decide (id st = str "new")
    then NotesInsert [payload]
    else NotesUpdate payload (id st) ].
Proof.
  intros Hn Hs payload. rewrite (run_handleSave st n s w Hn Hs). simpl.
  destruct (checked _); simpl; unfold saveCall, new; by case_bool_decide.
Qed.

(** C6. When the request sent by [handleSave] fails (it rejects, or resolves
    to a reply carrying an error), the draft in the resulting state is the
    draft as it was, the error message of the page is set, the saving flag is
    cleared, the page does not navigate away, and the failed request is the
    only one sent: nothing is retried. *)
Theorem handleSave_failure (st st' : State) (w w' : world E) (tr : list Event)
    (c : Call) (o : Outcome) :
  run E (handleSave st) w = (st', w', tr) →
  Called c o ∈ tr → failed o = true →
  note st' = note st
  ∧ error st' = Some (str "Failed to save note. Please try again.")
  ∧ saving st' = false
  ∧ calls tr = [c]
  ∧ (∀ to, Did (Navigate to) ∉ tr).
Proof.
  intros Hrun Hin Hfail.
  destruct (note st) as [n|] eqn:Hn; last first.
  { rewrite handleSave_guard in Hrun by auto.
    simpl in Hrun. simplify_eq. by apply elem_of_nil in Hin. }
  destruct (session st) as [s|] eqn:Hs; last first.
  { rewrite handleSave_guard in Hrun by auto.
    simpl in Hrun. simplify_eq. by apply elem_of_nil in Hin. }
  rewrite (run_handleSave st n s w Hn Hs) in Hrun. simpl in Hrun.
  unfold failed in Hfail.
  destruct (checked (serve E _ w).1) as [e|r] eqn:Hc; simplify_eq.
  - set_unfold in Hin. destruct Hin as [Hin|[Hin|[]]]; [|done]. simplify_eq.
    simpl. repeat split; try done. intros to Hto. set_unfold in Hto.
    destruct Hto as [Hto|[Hto|[]]]; discriminate Hto.
  - set_unfold in Hin. destruct Hin as [Hin|[Hin|[]]]; [|done]. simplify_eq.
    rewrite Hc in Hfail. done.
Qed.

End Save.

(** Instances of the three statements above on sample data. *)

Lemma handleSave_without_draft_or_session_witness :
  (NotePage.note Examples.signedOutPage = None
   ∨ NotePage.session Examples.signedOutPage = None)
  ∧ Eff.run (Scripted.env []) (NotePage.handleSave Examples.signedOutPage) []
    = (Examples.signedOutPage, [], []).
Proof.
  split; [by right|].
  apply (handleSave_without_draft_or_session (Scripted.env [])). by right.
Defined.

Lemma handleSave_request_witness :
  Eff.calls (Eff.run (Scripted.env []) (NotePage.handleSave Examples.newPage) []).2 =
  [ Supabase.NotesInsert
      [ NoteData.mk (JS.str "Midterm Review") (JS.str "# Cells") (JS.str "Biology")
                    [JS.str "exam"] [Examples.examUrl] (JS.str "alice") ] ].
Proof.
  exact (handleSave_request (Scripted.env []) Examples.newPage Examples.draft
           Examples.alice [] eq_refl eq_refl).
Defined.

Lemma handleSave_failure_witness :
  let r := Eff.run (Scripted.env []) (NotePage.handleSave Examples.storedPage)
                   [Scripted.denied] in
  NotePage.note r.1.1 = Some Examples.stored
  ∧ NotePage.error r.1.1 = Some (JS.str "Failed to save note. Please try again.")
  ∧ NotePage.saving r.1.1 = false
  ∧ Eff.calls r.2 =
      [Supabase.NotesUpdate (NotePage.noteData Examples.stored Examples.alice)
                            Examples.noteId]
  ∧ (∀ to, Eff.Did (Eff.Navigate to) ∉ r.2).
Proof.
  intros r.
  apply (handleSave_failure (Scripted.env []) Examples.storedPage r.1.1
           [Scripted.denied] r.1.2 r.2 _ Scripted.denied).
  - reflexivity.
  - apply list_elem_of_here.
  - reflexivity.
Defined.

(** ** The note page: deleting *)

Section BackendFacts.
Import Supabase Backend.

(** Requests to the bucket, and injected faults, leave table [notes] and the
    caller's identity alone. *)
Lemma serve_remove_notes (names : list (option jsstring)) (w : World) :
  notes (serve (StorageRemove names) w).2 = notes w
  ∧ auth_uid (serve (StorageRemove names) w).2 = auth_uid w.
Proof.
  unfold serve. destruct (faults w) as [|[|e|e] fs]; simpl;
    destruct (auth_uid w) eqn:Hu; simpl; auto.
Qed.

Lemma visible_ext (w w' : World) (id : jsstring) :
  notes w' = notes w → auth_uid w' = auth_uid w → visible w' id = visible w id.
Proof. unfold visible, owns. by intros -> ->. Qed.

End BackendFacts.

Section Delete.
Import JS Supabase Eff NotePage.

(** The run of [handleDelete] once the user has confirmed, on a draft that
    has attachments. *)
Lemma run_handleDelete (E : Env) (st : State) (n : Note.t) (w : world E) :
  note st = Some n → Note.attachments n ≠ [] →
  (answer E confirmDelete w).1 = true →
  let w0 := (answer E confirmDelete w).2 in
  let names := (λ url, pop (split slash url)) <$> Note.attachments n in
  let o := (serve E (StorageRemove names) w0).1 in
  let w1 := (serve E (StorageRemove names) w0).2 in
  let st1 := setError None st in
  run E (handleDelete st) w =
  match checked o with
  | inl e =>
      (setError (Some deleteFailedMessage) st1, w1,
       [Asked confirmDelete true; Called (StorageRemove names) o;
        Did (ConsoleError (str "Error deleting note:") e)])
  | inr _ =>
      let '(st2, w2, tr) := run E (deleteRecord st1) w1 in
      (st2, w2, Asked confirmDelete true :: Called (StorageRemove names) o :: tr)
  end.
Proof.
  intros Hn Hatt Hyes. unfold handleDelete. simpl.
  destruct (answer E confirmDelete w) as [yes w0]. simpl in *. subst yes. simpl.
  rewrite Hn. rewrite bool_decide_true by (destruct (Note.attachments n); simpl; [done|lia]).
  simpl. unfold FileUpload.objectName.
  destruct (serve E _ w0) as [o w1]. simpl.
  destruct (checked o) as [e|r]; simpl; [done|].
  destruct (serve E _ w1) as [o' w2]. by destruct (checked o').
Qed.

Lemma calls_deleteRecord (E : Env) (st : State) (w : world E) :
  calls (run E (deleteRecord st) w).2 = [NotesDelete (id st)].
Proof.
  unfold deleteRecord. simpl. destruct (serve E _ w) as [o w1].
  by destruct (checked o).
Qed.

(** When the user declines, nothing happens. *)
Lemma run_handleDelete_declined (E : Env) (st : State) (w : world E) :
  (answer E confirmDelete w).1 = false →
  run E (handleDelete st) w
  = (st, (answer E confirmDelete w).2, [Asked confirmDelete false]).
Proof.
  intros Hno. unfold handleDelete. simpl.
  destruct (answer E confirmDelete w) as [yes w0]. simpl in *. by subst yes.
Qed.

(** C2. On a loaded note with a non-empty attachment list, [handleDelete]
    asks for confirmation.  If the user declines, it sends nothing.  If the
    user confirms, it first sends one removal request naming the trailing
    path segment of every attachment.  If that request fails, it is the only
    request sent: no record deletion is issued, the page shows the error and
    keeps the draft, and the world is the one left by the removal request
    alone.  If it succeeds, the record deletion follows as the second and
    last request.  Against the tables of the migrations, a failed removal
    therefore leaves every record retrievable exactly as before. *)
Theorem handleDelete_attachments_first (st : State) (n : Note.t) :
  note st = Some n → Note.attachments n ≠ [] →
  let names := (λ url, pop (split slash url)) <$> Note.attachments n in
  (∀ (E : Env) (w : world E),
     let r := run E (handleDelete st) w in
     let w0 := (answer E confirmDelete w).2 in
     let o := (serve E (StorageRemove names) w0).1 in
     ((answer E confirmDelete w).1 = false → calls r.2 = [])
     ∧ ((answer E confirmDelete w).1 = true →
        (∃ tr, r.2 = Asked confirmDelete true :: Called (StorageRemove names) o :: tr)
        ∧ (failed o = true →
             calls r.2 = [StorageRemove names]
             ∧ r.1.2 = (serve E (StorageRemove names) w0).2
             ∧ note r.1.1 = Some n
             ∧ error r.1.1 = Some (str "Failed to delete note. Please try again."))
        ∧ (failed o = false →
             calls r.2 = [StorageRemove names; NotesDelete (id st)])))
  ∧ (∀ w : Backend.World,
       let r := run Backend.env (handleDelete st) w in
       let w0 := (Backend.answer confirmDelete w).2 in
       (Backend.answer confirmDelete w).1 = true →
       failed (Backend.serve (StorageRemove names) w0).1 = true →
       (NotesDelete (id st) ∉ calls (r.2))
       ∧ (∀ i, Backend.visible r.1.2 i = Backend.visible w i)).
Proof.
  intros Hn Hatt names.
  assert (Hgen : ∀ (E : Env) (w : world E),
     (answer E confirmDelete w).1 = true →
     let r := run E (handleDelete st) w in
     let w0 := (answer E confirmDelete w).2 in
     let o := (serve E (StorageRemove names) w0).1 in
     (∃ tr, r.2 = Asked confirmDelete true :: Called (StorageRemove names) o :: tr)
     ∧ (failed o = true →
          calls r.2 = [StorageRemove names]
          ∧ r.1.2 = (serve E (StorageRemove names) w0).2
          ∧ note r.1.1 = Some n
          ∧ error r.1.1 = Some (str "Failed to delete note. Please try again."))
     ∧ (failed o = false →
          calls r.2 = [StorageRemove names; NotesDelete (id st)])).
  { intros E w Hyes r w0 o. subst r.
    rewrite (run_handleDelete E st n w Hn Hatt Hyes). fold names w0 o.
    unfold failed. destruct (checked o) as [e|rep] eqn:Hc.
    + split; [eauto|]. split; [|done]. intros _. done.
    + pose proof (calls_deleteRecord E (setError None st)
                    (serve E (StorageRemove names) w0).2) as Hcalls.
      destruct (run E (deleteRecord _) _) as [[st2 w2] tr]. simpl in *.
      split; [eauto|]. split; [done|]. intros _. by rewrite Hcalls. }
  split.
  - intros E w r w0 o. split; [|exact (Hgen E w)].
    intros Hno. unfold r. by rewrite run_handleDelete_declined.
  - intros w r w0 Hyes Hfail.
    destruct (Hgen Backend.env w Hyes) as (_ & Habort & _).
    destruct (Habort Hfail) as (Hcalls & Hworld & _). fold r in Hcalls, Hworld.
    split.
    + rewrite Hcalls. set_unfold. intros [H|[]]. discriminate H.
    + intros i. rewrite Hworld. simpl. fold w0.
      etrans; [apply visible_ext; apply serve_remove_notes|].
      by apply visible_ext.
Qed.

End Delete.

Lemma handleDelete_attachments_first_witness :
  NotePage.note Examples.storedPage = Some Examples.stored
  ∧ Note.attachments Examples.stored ≠ []
  ∧ Eff.calls (Eff.run (Scripted.env []) (NotePage.handleDelete Examples.storedPage)
                       [Scripted.denied]).2
    = [Supabase.StorageRemove [Some (JS.str "0.5.pdf")]]
  ∧ Backend.visible
      (Eff.run Backend.env (NotePage.handleDelete Examples.storedPage)
               Examples.outage).1.2
      Examples.noteId
    = Some Examples.stored.
Proof.
  split; [reflexivity|]. split; [discriminate|].
  pose proof (handleDelete_attachments_first Examples.storedPage Examples.stored
                eq_refl ltac:(discriminate)) as [Hany Hbackend].
  split.
  - destruct (Hany (Scripted.env []) [Scripted.denied]) as (_ & Hyes).
    destruct (Hyes eq_refl) as (_ & Hfail & _).
    exact (proj1 (Hfail eq_refl)).
  - destruct (Hbackend Examples.outage eq_refl eq_refl) as [_ Hvisible].
    rewrite Hvisible. vm_compute. reflexivity.
Defined.

(** ** Splitting text *)

Section SplitFacts.
Import JS.

Lemma split_nonempty (sep : N) (s : jsstring) : split sep s ≠ [].
Proof.
  destruct s as [|c s]; simpl; [done|].
  destruct (c =? sep)%N; [done|]. by destruct (split sep s).
Qed.

(** Text without the separator is a single segment. *)
Lemma split_no_sep (sep : N) (s : jsstring) : sep ∉ s → split sep s = [s].
Proof.
  induction s as [|c s IH]; intros Hs; simpl; [done|].
  apply not_elem_of_cons in Hs as [Hne Hs].
  destruct (N.eqb_spec c sep) as [->|_]; [done|]. by rewrite IH.
Qed.

(** Splitting distributes over an occurrence of the separator. *)
Lemma split_app (sep : N) (a b : jsstring) :
  split sep (a ++ sep :: b) = split sep a ++ split sep b.
Proof.
  induction a as [|c a IH]; simpl.
  - by rewrite N.eqb_refl.
  - rewrite IH. destruct (c =? sep)%N; [done|].
    pose proof (split_nonempty sep a). by destruct (split sep a).
Qed.

(** No segment contains the separator, and segments are made of code units
    of the text. *)
Lemma split_segments (sep : N) (s seg : jsstring) :
  seg ∈ split sep s → (sep ∉ seg) ∧ seg ⊆ s.
Proof.
  revert seg. induction s as [|c s IH]; intros seg; simpl.
  - intros ->%list_elem_of_singleton. split; [apply not_elem_of_nil|done].
  - destruct (N.eqb_spec c sep) as [->|Hne].
    + intros [->|Hin]%elem_of_cons.
      * split; [apply not_elem_of_nil|]. apply list_subseteq_nil.
      * destruct (IH _ Hin) as [H1 H2]. split; [done|].
        intros x Hx. right. by apply H2.
    + pose proof (split_nonempty sep s) as Hsegs.
      destruct (split sep s) as [|seg0 segs] eqn:Hsp; [done|].
      intros [->|Hin]%elem_of_cons.
      * destruct (IH seg0) as [H1 H2]; [left|]. split.
        -- intros [Heq|Hin]%elem_of_cons; [by apply Hne|by apply H1].
        -- intros x [->|Hx]%elem_of_cons; [left|right; by apply H2].
      * destruct (IH seg) as [H1 H2]; [by right|]. split; [done|].
        intros x Hx. right. by apply H2.
Qed.

Lemma pop_split_app (sep : N) (a b : jsstring) :
  pop (split sep (a ++ sep :: b)) = pop (split sep b).
Proof.
  unfold pop. rewrite split_app.
  pose proof (split_nonempty sep b).
  destruct (split sep b) as [|seg segs _] using rev_ind; [done|].
  by rewrite app_assoc, !last_snoc.
Qed.

Lemma pop_split_no_sep (sep : N) (a b : jsstring) :
  sep ∉ b → pop (split sep (a ++ sep :: b)) = Some b.
Proof. intros Hb. by rewrite pop_split_app, split_no_sep. Qed.

Lemma pop_split_is_Some (sep : N) (s : jsstring) :
  ∃ seg, pop (split sep s) = Some seg ∧ (sep ∉ seg) ∧ seg ⊆ s.
Proof.
  unfold pop. pose proof (split_nonempty sep s) as Hne.
  destruct (last (split sep s)) as [seg|] eqn:Hlast.
  - exists seg. split; [done|]. apply (split_segments sep s).
    apply last_Some in Hlast as [l' ->]. apply elem_of_app. right. left.
  - by apply last_None in Hlast.
Qed.

End SplitFacts.

(** ** Storage names *)

Section StorageNames.
Import JS FileUpload.

Lemma str_dot : str "." = [dot].
Proof. reflexivity. Qed.

(** The extension is the text after the last dot. *)
Lemma fileExt_after_last_dot (stem ext : jsstring) :
  dot ∉ ext → fileExt (stem ++ str "." ++ ext) = Some ext.
Proof. intros Hext. unfold fileExt. rewrite str_dot. by apply pop_split_no_sep. Qed.

(** *** Percent-encoding *)

Lemma uriUnescaped_ascii (c : N) : uriUnescaped c = true → (c < 128)%N.
Proof.
  unfold uriUnescaped. rewrite !orb_true_iff, !andb_true_iff, !N.leb_le.
  intros [[[H|H]|H]|H]; [lia..|].
  apply bool_decide_eq_true in H.
  let l := eval vm_compute in (str ";/?:@&=+$,#-_.!~*'()") in
  change (str ";/?:@&=+$,#-_.!~*'()") with l in H.
  repeat (apply elem_of_cons in H as [->|H]; [lia|]).
  by apply elem_of_nil in H.
Qed.

Lemma uriUnescaped_no_surrogate (c : N) :
  uriUnescaped c = true → isHighSurrogate c = false ∧ isLowSurrogate c = false.
Proof.
  intros H%uriUnescaped_ascii. unfold isHighSurrogate, isLowSurrogate.
  split; apply andb_false_iff; left; apply N.leb_gt; lia.
Qed.

Lemma encodePoint_unescaped (c : N) : uriUnescaped c = true → encodePoint c = [c].
Proof.
  intros H. unfold encodePoint.
  pose proof (uriUnescaped_ascii c H) as Hc%N.ltb_lt. by rewrite Hc, H.
Qed.

Lemma encodeURI_cons (c : N) (s : jsstring) :
  isHighSurrogate c = false → encodeURI (c :: s) = encodePoint c ++ encodeURI s.
Proof. intros H. destruct s; simpl; [by rewrite app_nil_r|by rewrite H]. Qed.

(** A text can be encoded in two parts wherever the second part does not
    begin with the second half of a surrogate pair. *)
Lemma encodeURI_app (a : jsstring) (c : N) (b : jsstring) :
  isLowSurrogate c = false →
  encodeURI (a ++ c :: b) = encodeURI a ++ encodeURI (c :: b).
Proof.
  intros Hc.
  cut (encodeURI (a ++ c :: b) = encodeURI a ++ encodeURI (c :: b)
       ∧ ∀ x, encodeURI ((x :: a) ++ c :: b)
              = encodeURI (x :: a) ++ encodeURI (c :: b)); [by intros [? _]|].
  induction a as [|y a [IH1 IH2]].
  - split; [done|]. intros x.
    change (encodeURI ([x] ++ c :: b))
      with (if isHighSurrogate x && isLowSurrogate c
            then encodePoint (pairPoint x c) ++ encodeURI b
            else encodePoint x ++ encodeURI (c :: b)).
    by rewrite Hc, andb_false_r.
  - split; [apply IH2|]. intros x.
    change (encodeURI ((x :: y :: a) ++ c :: b))
      with (if isHighSurrogate x && isLowSurrogate y
            then encodePoint (pairPoint x y) ++ encodeURI (a ++ c :: b)
            else encodePoint x ++ encodeURI ((y :: a) ++ c :: b)).
    change (encodeURI (x :: y :: a))
      with (if isHighSurrogate x && isLowSurrogate y
            then encodePoint (pairPoint x y) ++ encodeURI a
            else encodePoint x ++ encodeURI (y :: a)).
    rewrite IH1, IH2. destruct (isHighSurrogate x && isLowSurrogate y);
      by rewrite app_assoc.
Qed.

(** A text made of unescaped code units is its own encoding. *)
Lemma encodeURI_unescaped (s : jsstring) :
  Forall (λ c, uriUnescaped c = true) s → encodeURI s = s.
Proof.
  induction 1 as [|c s Hc _ IH]; [done|].
  rewrite encodeURI_cons by by apply uriUnescaped_no_surrogate.
  by rewrite encodePoint_unescaped, IH.
Qed.

Lemma hexDigit_not_slash (n : N) : hexDigit n ≠ slash.
Proof. unfold hexDigit, slash. destruct (N.ltb_spec n 10); lia. Qed.

Lemma percent_no_slash (b : N) : slash ∉ percent b.
Proof.
  unfold percent. rewrite !not_elem_of_cons.
  pose proof (hexDigit_not_slash (b / 16)). pose proof (hexDigit_not_slash (b mod 16)).
  repeat split; [done|congruence..|apply not_elem_of_nil].
Qed.

Lemma encodePoint_no_slash (cp : N) : cp ≠ slash → slash ∉ encodePoint cp.
Proof.
  intros Hcp. unfold encodePoint.
  repeat case_match; rewrite ?not_elem_of_app;
    repeat split; try apply percent_no_slash.
  rewrite not_elem_of_cons. split; [congruence|apply not_elem_of_nil].
Qed.

(** Encoding brings no slash into a text. *)
Lemma encodeURI_no_slash (s : jsstring) : slash ∉ s → slash ∉ encodeURI s.
Proof.
  cut ((slash ∉ s → slash ∉ encodeURI s)
       ∧ ∀ x, slash ∉ x :: s → slash ∉ encodeURI (x :: s)); [by intros [? _]|].
  assert (Hpair : ∀ x y, pairPoint x y ≠ slash)
    by (intros x y; unfold pairPoint, slash; lia).
  induction s as [|y s [IH1 IH2]].
  - split; [done|]. intros x [Hx _]%not_elem_of_cons. simpl.
    apply encodePoint_no_slash. congruence.
  - split; [apply IH2|]. intros x [Hx Hs]%not_elem_of_cons.
    change (encodeURI (x :: y :: s))
      with (if isHighSurrogate x && isLowSurrogate y
            then encodePoint (pairPoint x y) ++ encodeURI s
            else encodePoint x ++ encodeURI (y :: s)).
    destruct (isHighSurrogate x && isLowSurrogate y); rewrite not_elem_of_app.
    + split; [by apply encodePoint_no_slash|].
      apply IH1. by apply not_elem_of_cons in Hs as [_ ?].
    + split; [apply encodePoint_no_slash; congruence|by apply IH2].
Qed.

(** The name the removal paths derive from a public URL is the encoding of
    the name the object was stored under. *)
Lemma objectName_getPublicUrl (base path : jsstring) :
  slash ∉ path → objectName (getPublicUrl base path) = Some (encodeURI path).
Proof.
  intros Hpath. unfold objectName, getPublicUrl.
  change (str "/storage/v1/object/public/notes-attachments/")
    with (str "/storage/v1/object/public/notes-attachments" ++ [slash]).
  rewrite <- app_assoc, app_assoc.
  change ([slash] ++ path) with (slash :: path).
  rewrite encodeURI_app by done.
  rewrite (encodeURI_cons slash) by done.
  change (encodePoint slash ++ encodeURI path) with (slash :: encodeURI path).
  apply pop_split_no_sep. by apply encodeURI_no_slash.
Qed.

(** So the derived name is the stored name exactly when encoding leaves the
    stored name as it is. *)
Lemma derived_name_is_stored_name (base path : jsstring) :
  slash ∉ path →
  objectName (getPublicUrl base path) = Some path ↔ encodeURI path = path.
Proof.
  intros Hpath. rewrite objectName_getPublicUrl by done.
  split; [by intros [= ?]|by intros ->].
Qed.

(** The round trip between name generation and name derivation, for an
    extension and a number text made of unescaped code units other than the
    slash, as the extensions [pdf], [ppt], [pptx], [mp4], [webm], [doc] and
    [docx] of the drop zone's table are: the generated name is the number's
    text, a dot and the extension, and both removal paths derive exactly
    that name from its public URL. *)
Lemma storage_name_round_trip_unescaped (base name r ext : jsstring) :
  fileExt name = Some ext →
  Forall (λ c, uriUnescaped c = true ∧ c ≠ slash) ext →
  Forall (λ c, uriUnescaped c = true ∧ c ≠ slash) r →
  let generated := fileName r name in
  generated = r ++ str "." ++ ext
  ∧ fileExt generated = Some ext
  ∧ objectName (getPublicUrl base generated) = Some generated
  ∧ (∀ urls, objectName <$> (urls ++ [getPublicUrl base generated])
             = (objectName <$> urls) ++ [Some generated]).
Proof.
  intros Hext Hplain Hr generated.
  assert (Hdot : dot ∉ ext).
  { destruct (pop_split_is_Some dot name) as (ext0 & Hext0 & Hdot & _).
    unfold fileExt in Hext. congruence. }
  assert (Hgen : generated = r ++ str "." ++ ext).
  { unfold generated, fileName. by rewrite Hext. }
  assert (Hall : Forall (λ c, uriUnescaped c = true ∧ c ≠ slash) generated).
  { rewrite Hgen. apply Forall_app. split; [done|]. apply Forall_app.
    split; [|done]. rewrite str_dot. by apply Forall_singleton. }
  assert (Hurl : objectName (getPublicUrl base generated) = Some generated).
  { apply derived_name_is_stored_name.
    - intros Hin. by eapply Forall_forall in Hall as [_ ?]; [|exact Hin].
    - apply encodeURI_unescaped. eapply Forall_impl; [exact Hall|]. by intros c [? _]. }
  split; [done|]. split; [|split].
  - rewrite Hgen. by apply fileExt_after_last_dot.
  - done.
  - intros urls. by rewrite fmap_app, <- Hurl.
Qed.

End StorageNames.

(** C8. The generated name keeps the extension, but the derived name is not
    always the generated one.  A PDF named [My Notes] passes validation and
    is uploaded under the generated name [0.5.My Notes], whose extension is
    [My Notes] as the file's is; the public URL the page receives ends in
    [0.5.My%20Notes], and that is the name both removal paths derive from
    it: [handleRemoveFile] and [handleDelete] ask the storage to remove
    [0.5.My%20Notes], a name under which nothing was stored. *)
Theorem storage_name_not_derived_back :
  let r := Eff.run (Scripted.env [])
             (FileUpload.drop Examples.supabaseUrl NotePage.uploadProps
                Examples.idle Examples.storedPage [Examples.myNotes])
             [Supabase.ok] in
  let url := FileUpload.getPublicUrl Examples.supabaseUrl (JS.str "0.5.My Notes") in
  FileUpload.validate Examples.myNotes = true
  ∧ FileUpload.fileExt (File.name Examples.myNotes) = Some (JS.str "My Notes")
  ∧ FileUpload.fileName (JS.str "0.5") (File.name Examples.myNotes)
    = JS.str "0.5.My Notes"
  ∧ FileUpload.fileExt (JS.str "0.5.My Notes") = Some (JS.str "My Notes")
  ∧ Eff.uploads r.2 = [(Examples.myNotes, JS.str "0.5.My Notes", Supabase.ok)]
  ∧ NotePage.draftAttachments r.1.1.2 = [Examples.examUrl; url]
  ∧ FileUpload.objectName url = Some (JS.str "0.5.My%20Notes")
  ∧ FileUpload.objectName url ≠ Some (JS.str "0.5.My Notes")
  ∧ Eff.calls (Eff.run (Scripted.env [])
                 (FileUpload.handleRemoveFile NotePage.uploadProps Examples.idle
                    r.1.1.2 url)
                 [Supabase.ok]).2
    = [Supabase.StorageRemove [Some (JS.str "0.5.My%20Notes")]]
  ∧ Eff.calls (Eff.run (Scripted.env [])
                 (NotePage.handleDelete r.1.1.2)
                 [Supabase.ok; Supabase.ok]).2
    = [Supabase.StorageRemove [Some (JS.str "0.5.pdf");
                               Some (JS.str "0.5.My%20Notes")];
       Supabase.NotesDelete (NotePage.id r.1.1.2)].
Proof. vm_compute. repeat split. discriminate. Qed.

(** ** Removing one attachment *)

Section RemoveAttachment.
Import JS Supabase Eff.

(** The run of the upload component's [handleRemoveFile] when the parent
    passed [onRemoveFile] and the URL has a non-empty trailing segment. *)
Lemma run_handleRemoveFile {P} (E : Env) (props : FileUpload.Props P)
    (cb : jsstring → P → P) (st : FileUpload.State) (parent : P)
    (url name : jsstring) (w : world E) :
  FileUpload.onRemoveFile props = Some cb →
  FileUpload.objectName url = Some name → name ≠ [] →
  let c := StorageRemove [Some name] in
  run E (FileUpload.handleRemoveFile props st parent url) w =
  match (serve E c w).1 with
  | Rejected e =>
      ((FileUpload.setError (Some FileUpload.removeFailedMessage) st, parent),
       (serve E c w).2,
       [Called c (Rejected e); Did (ConsoleError (str "Error removing file:") e)])
  | Fulfilled r => ((st, cb url parent), (serve E c w).2, [Called c (Fulfilled r)])
  end.
Proof.
  intros Hcb Hname Hne. unfold FileUpload.handleRemoveFile.
  rewrite Hcb, Hname. destruct name as [|c0 name]; [done|]. simpl.
  destruct (serve E _ w) as [[r|e] w1]; reflexivity.
Qed.

(** The page's own [handleRemoveFile] drops every occurrence of the URL and
    nothing else. *)
Lemma handleRemoveFile_attachments (url : jsstring) (st : NotePage.State) :
  NotePage.draftAttachments (NotePage.handleRemoveFile url st)
  = filter (λ u, u ≠ url) (NotePage.draftAttachments st).
Proof.
  unfold NotePage.draftAttachments, NotePage.handleRemoveFile. simpl.
  by destruct (NotePage.note st).
Qed.

(** When the removal request resolves without an error, the URL is gone from
    the draft. *)
Lemma removeAttachment_success (E : Env) (st : FileUpload.State)
    (page : NotePage.State) (url name : jsstring) (w : world E) :
  FileUpload.objectName url = Some name → name ≠ [] →
  failed (serve E (StorageRemove [Some name]) w).1 = false →
  let r := run E (FileUpload.handleRemoveFile NotePage.uploadProps st page url) w in
  url ∉ NotePage.draftAttachments r.1.1.2.
Proof.
  intros Hname Hne Hok r. subst r.
  rewrite (run_handleRemoveFile E NotePage.uploadProps NotePage.handleRemoveFile st page url name w
             eq_refl Hname Hne).
  unfold failed, checked in Hok.
  destruct (serve E _ w).1 as [rep|e]; [|done]. simpl.
  rewrite handleRemoveFile_attachments. intros [Hneq _]%list_elem_of_filter. by apply Hneq.
Qed.

(** When the removal request rejects, the draft is unchanged and the
    component shows its error. *)
Lemma removeAttachment_rejected (E : Env) (st : FileUpload.State)
    (page : NotePage.State) (url name : jsstring) (w : world E) (e : Err) :
  FileUpload.objectName url = Some name → name ≠ [] →
  (serve E (StorageRemove [Some name]) w).1 = Rejected e →
  let r := run E (FileUpload.handleRemoveFile NotePage.uploadProps st page url) w in
  r.1.1.2 = page
  ∧ FileUpload.error r.1.1.1 = Some (str "Failed to remove file. Please try again.").
Proof.
  intros Hname Hne Hrej r. subst r.
  rewrite (run_handleRemoveFile E NotePage.uploadProps NotePage.handleRemoveFile st page url name w
             eq_refl Hname Hne).
  by rewrite Hrej.
Qed.

(** When the removal request resolves to a reply that carries an error, the
    reply is not inspected: the URL is dropped from the draft all the same
    and no error is shown. *)
Lemma removeAttachment_error_reply (E : Env) (st : FileUpload.State)
    (page : NotePage.State) (url name : jsstring) (w : world E) (e : Err) :
  FileUpload.objectName url = Some name → name ≠ [] →
  (serve E (StorageRemove [Some name]) w).1 = Fulfilled (mkReply None (Some e)) →
  let r := run E (FileUpload.handleRemoveFile NotePage.uploadProps st page url) w in
  NotePage.draftAttachments r.1.1.2
  = filter (λ u, u ≠ url) (NotePage.draftAttachments page)
  ∧ r.1.1.1 = st.
Proof.
  intros Hname Hne Herr r. subst r.
  rewrite (run_handleRemoveFile E NotePage.uploadProps NotePage.handleRemoveFile st page url name w
             eq_refl Hname Hne).
  rewrite Herr. simpl. by rewrite handleRemoveFile_attachments.
Qed.

(** C1. The stored note has the single attachment [examUrl]; the user
    removes it and the storage service answers the removal request with an
    error reply ([{ data: null, error }]).  The removal has failed, the
    request is the only one sent, and yet the draft's attachment list is
    empty afterwards and the component shows no error. *)
Theorem removeAttachment_failure_drops_url :
  let r := run (Scripted.env [])
               (FileUpload.handleRemoveFile NotePage.uploadProps Examples.idle
                  Examples.storedPage Examples.examUrl)
               [Scripted.denied] in
  NotePage.draftAttachments Examples.storedPage = [Examples.examUrl]
  ∧ r.2 = [Called (StorageRemove [Some (str "0.5.pdf")]) Scripted.denied]
  ∧ failed Scripted.denied = true
  ∧ NotePage.draftAttachments r.1.1.2 = []
  ∧ FileUpload.error r.1.1.1 = None.
Proof. vm_compute. repeat split. Qed.

End RemoveAttachment.

(** ** Dropping a batch of files *)

Section Drop.
Import JS Supabase Eff FileUpload.
Context (E : Env) (base : jsstring).

Lemma drawAll_length (n : nat) (w : world E) : length (drawAll E n w).1 = n.
Proof.
  revert w. induction n as [|n IH]; intros w; simpl; [done|].
  destruct (random E w) as [r w1]. specialize (IH w1).
  destruct (drawAll E n w1) as [rs w2]. simpl in *. by rewrite IH.
Qed.

(** One draw per file, in the order of the files. *)
Lemma run_forEach_draw (g : jsstring → File.t → jsstring) (fs : list File.t)
    (w : world E) :
  run E (forEach (λ file, r ← mathRandom; mret (g r file)) fs) w =
  (zip_with g (drawAll E (length fs) w).1 fs, (drawAll E (length fs) w).2,
   Drew <$> (drawAll E (length fs) w).1).
Proof.
  revert w. induction fs as [|f fs IH]; intros w; [reflexivity|].
  simpl. destruct (random E w) as [r w1]. simpl.
  unfold mbind, proc_bind. rewrite run_bind.
  pose proof (IH w1) as IH1. unfold mbind, proc_bind in IH1. simpl in IH1.
  rewrite IH1. destruct (drawAll E (length fs) w1) as [rs w2]. simpl.
  by rewrite app_nil_r.
Qed.

(** Resuming the jobs touches neither the world nor the [uploading] flag,
    and writes one console entry per failed job, in the order in which the
    jobs are resumed. *)
Lemma run_resumeAll (jobs : list (File.t * jsstring * Outcome)) (order : list nat)
    (st : State) (w : world E) :
  ∃ st', run E (resumeAll jobs order st) w
         = (st', w, Did <$> omap (λ i, jobs !! i ≫= failureOf) order)
         ∧ uploading st' = uploading st.
Proof.
  revert st. induction order as [|i order IH]; intros st; simpl.
  - by exists st.
  - destruct (jobs !! i) as [[[file path] o]|] eqn:Hi; simpl; [|apply IH].
    destruct (checked o) as [e|rep]; simpl.
    + destruct (IH (setError (Some (failedMessage file)) st)) as (st' & -> & Hu).
      by exists st'.
    + destruct (IH (setUploadProgress (λ prev, <[File.name file:=100%N]> prev) st))
        as (st' & -> & Hu).
      by exists st'.
Qed.

Lemma uploads_zip (paths : list jsstring) (files : list File.t) (os : list Outcome) :
  uploads (zip_with Called (zip_with StorageUpload paths files) os)
  = zip (zip files paths) os.
Proof.
  revert files os. induction paths as [|p paths IH]; intros [|f files] [|o os];
    simpl; try done.
  by rewrite <- IH.
Qed.

Lemma calls_zip (paths : list jsstring) (files : list File.t) (os : list Outcome) :
  calls (zip_with Called (zip_with StorageUpload paths files) os)
  = (λ job, StorageUpload job.1.2 job.1.1) <$> zip (zip files paths) os.
Proof.
  revert files os. induction paths as [|p paths IH]; intros [|f files] [|o os];
    simpl; try done.
  by rewrite <- IH.
Qed.

Lemma calls_app (t1 t2 : list Event) : calls (t1 ++ t2) = calls t1 ++ calls t2.
Proof. apply omap_app. Qed.

Lemma calls_Drew (rs : list jsstring) : calls (Drew <$> rs) = [].
Proof. by induction rs. Qed.

Lemma calls_Did (outs : list Output) : calls (Did <$> outs) = [].
Proof. by induction outs. Qed.

Lemma uploads_app (t1 t2 : list Event) : uploads (t1 ++ t2) = uploads t1 ++ uploads t2.
Proof. apply omap_app. Qed.

Lemma uploads_Drew (rs : list jsstring) : uploads (Drew <$> rs) = [].
Proof. by induction rs. Qed.

Lemma uploads_Did (outs : list Output) : uploads (Did <$> outs) = [].
Proof. by induction outs. Qed.

Lemma outputs_app (t1 t2 : list Event) : outputs (t1 ++ t2) = outputs t1 ++ outputs t2.
Proof. apply omap_app. Qed.

Lemma outputs_Drew (rs : list jsstring) : outputs (Drew <$> rs) = [].
Proof. by induction rs. Qed.

Lemma outputs_Did (outs : list Output) : outputs (Did <$> outs) = outs.
Proof. induction outs; simpl; [done|]. by f_equal. Qed.

Lemma outputs_Called (cs : list Call) (os : list Outcome) :
  outputs (zip_with Called cs os) = [].
Proof. revert os. induction cs; intros [|o os]; simpl; auto. Qed.

End Drop.

Section DropRun.
Import JS Supabase Eff FileUpload.
Context {P : Type} (E : Env) (base : jsstring) (props : Props P).

(** A batch without a file of admissible size: [onDrop] returns before any
    job is started. *)
Lemma run_onDrop_none (st : State) (parent : P) (files : list File.t) (w : world E) :
  validFilesOf files = [] →
  ∃ st1, run E (onDrop base props st parent files) w = ((st1, parent), w, [])
         ∧ uploading st1 = false.
Proof.
  intros Hnone. unfold onDrop. rewrite Hnone. simpl. eauto.
Qed.

(** The run of [onDrop] on a batch with at least one file of admissible size:
    one draw and one upload request per such file, then the jobs resumed in
    the order chosen by the scheduler, then the callback. *)
Lemma run_onDrop_some (st : State) (parent : P) (files : list File.t) (w : world E) :
  validFilesOf files ≠ [] →
  let valid := validFilesOf files in
  let rs := (drawAll E (length valid) w).1 in
  let w1 := (drawAll E (length valid) w).2 in
  let paths := zip_with (λ r f, fileName r (File.name f)) rs valid in
  let cs := zip_with StorageUpload paths valid in
  let os := (serveAll E cs w1).1 in
  let w2 := (serveAll E cs w1).2 in
  let order := completionOrder (picks E (length cs) w2).1 (length cs) in
  let w3 := (picks E (length cs) w2).2 in
  let jobs := zip (zip valid paths) os in
  let validUrls := omap (λ url, url) (jobResult base <$> jobs) in
  ∃ st1,
    run E (onDrop base props st parent files) w =
    ((st1,
      if bool_decide (0 < length validUrls)
      then onUploadComplete props validUrls parent else parent),
     w3,
     (Drew <$> rs) ++ zip_with Called cs os
       ++ (Did <$> omap (λ i, jobs !! i ≫= failureOf) order))
    ∧ uploading st1 = false.
Proof.
  intros Hsome valid rs w1 paths cs os w2 order w3 jobs validUrls.
  unfold onDrop. fold valid.
  rewrite bool_decide_false by (by intros ?%nil_length_inv).
  rewrite run_mbind.
  pose proof (run_forEach_draw E (λ r f, fileName r (File.name f)) valid w) as Hdraw.
  cbv beta in Hdraw. rewrite Hdraw. clear Hdraw.
  fold rs w1 paths. cbv zeta. rewrite run_mbind, run_awaitAll.
  fold cs. cbv zeta. fold os w2 w3 order. cbn [fst snd]. fold jobs.
  rewrite run_mbind.
  destruct (run_resumeAll E jobs order
              (reportTooLarge files
                 (setUploadProgress (λ _, ∅) (setUploading true (setError None st))))
              w3) as (st1 & -> & Hu).
  simpl. exists (setUploading false st1). by rewrite app_nil_r.
Qed.

End DropRun.

Section Jobs.
Import JS Supabase Eff FileUpload.
Context (base : jsstring).

Lemma omap_lookup_seq {A B} (f : A → option B) (pre l : list A) :
  omap (λ i, (pre ++ l) !! i ≫= f) (seq (length pre) (length l)) = omap f l.
Proof.
  revert pre. induction l as [|x l IH]; intros pre; simpl; [done|].
  rewrite list_lookup_middle by done. simpl.
  specialize (IH (pre ++ [x])). rewrite <- app_assoc, length_app in IH.
  simpl in IH. rewrite Nat.add_1_r in IH. unfold omap in IH.
  by rewrite IH.
Qed.

(** Whatever the order in which the jobs are resumed, the console entries
    are those of the failed jobs. *)
Lemma failures_any_order (jobs : list (File.t * jsstring * Outcome)) (ps : list nat) :
  omap (λ i, jobs !! i ≫= failureOf) (completionOrder ps (length jobs))
  ≡ₚ omap failureOf jobs.
Proof.
  rewrite (completionOrder_Permutation ps (length jobs)).
  by rewrite <- (omap_lookup_seq failureOf [] jobs).
Qed.

Lemma jobResult_omap (jobs : list (File.t * jsstring * Outcome)) :
  omap (λ url, url) (jobResult base <$> jobs) = omap (jobResult base) jobs.
Proof.
  induction jobs as [|job jobs IH]; [done|].
  rewrite fmap_cons. cbn [omap list_omap]. fold (@omap list _).
  unfold omap in *. rewrite IH. by destruct (jobResult base job).
Qed.

(** Every job either yields a URL or a console entry. *)
Lemma jobs_count (jobs : list (File.t * jsstring * Outcome)) :
  length (omap failureOf jobs) = length (filter (λ job, failed job.2) jobs)
  ∧ length (omap (jobResult base) jobs)
    = length jobs - length (filter (λ job, failed job.2) jobs).
Proof.
  induction jobs as [|[[file path] o] jobs [IH1 IH2]]; simpl; [done|].
  rewrite filter_cons. simpl.
  pose proof (length_filter (λ job : File.t * jsstring * Outcome, failed job.2) jobs).
  unfold omap in *.
  destruct (checked o) as [e|rep] eqn:Hc; simpl.
  - assert (Hfo : failed o = true) by (unfold failed; by rewrite Hc).
    rewrite Hfo. simpl. lia.
  - assert (Hfo : failed o = false) by (unfold failed; by rewrite Hc).
    rewrite Hfo. simpl. lia.
Qed.

End Jobs.

Section Batch.
Import JS Supabase Eff FileUpload.
Context {P : Type} (E : Env) (base : jsstring) (props : Props P).

(** What a run of [onDrop] amounts to, read off its trace: the upload
    requests are one per file of admissible size, in the order of the files
    and under names generated from the file's own name; the parent receives
    the URLs of the uploads that succeeded, if there is any; the console
    entries are those of the uploads that failed. *)
Lemma onDrop_summary (st : State) (parent : P) (files : list File.t) (w : world E) :
  let r := run E (onDrop base props st parent files) w in
  let jobs := uploads r.2 in
  let urls := omap (jobResult base) jobs in
  jobs.*1.*1 = validFilesOf files
  ∧ Forall (λ job, ∃ rnd, job.1.2 = fileName rnd (File.name job.1.1)) jobs
  ∧ r.1.1.2 = (if bool_decide (0 < length urls)
               then onUploadComplete props urls parent else parent)
  ∧ outputs r.2 ≡ₚ omap failureOf jobs
  ∧ uploading r.1.1.1 = false
  ∧ calls r.2 = (λ job, StorageUpload job.1.2 job.1.1) <$> jobs.
Proof.
  destruct (decide (validFilesOf files = [])) as [Hnone|Hsome].
  - destruct (run_onDrop_none E base props st parent files w Hnone) as (st1 & -> & Hu).
    simpl. rewrite Hnone. by repeat split.
  - destruct (run_onDrop_some E base props st parent files w Hsome) as (st1 & -> & Hu).
    set (valid := validFilesOf files).
    set (rs := (drawAll E (length valid) w).1).
    set (w1 := (drawAll E (length valid) w).2).
    set (paths := zip_with (λ r f, fileName r (File.name f)) rs valid).
    set (cs := zip_with StorageUpload paths valid).
    set (os := (serveAll E cs w1).1).
    set (jobs := zip (zip valid paths) os).
    assert (Hrs : length rs = length valid) by apply drawAll_length.
    assert (Hpaths : length paths = length valid).
    { unfold paths. rewrite length_zip_with. lia. }
    assert (Hcs : length cs = length valid).
    { unfold cs. rewrite length_zip_with. lia. }
    assert (Hos : length os = length valid).
    { unfold os. rewrite serveAll_length. done. }
    assert (Hjobs : length jobs = length cs).
    { unfold jobs. rewrite !length_zip. lia. }
    cbv zeta. cbn [fst snd]. rewrite <- !Hjobs.
    rewrite !uploads_app, uploads_Drew, uploads_Did, app_nil_r.
    rewrite !calls_app, calls_Drew, calls_Did, app_nil_r.
    unfold cs. rewrite uploads_zip, calls_zip.
    rewrite !outputs_app, outputs_Drew, outputs_Called, outputs_Did.
    cbn [app]. fold jobs.
    split; [|split; [|split; [|split; [|split]]]].
    + unfold jobs. rewrite fst_zip by (rewrite length_zip; lia).
      rewrite fst_zip by lia. done.
    + apply Forall_forall. intros [[file path] o] Hin. simpl.
      assert (Hin' : (file, path) ∈ zip valid paths).
      { unfold jobs in Hin. apply list_elem_of_lookup in Hin as [i Hi].
        apply lookup_zip_with_Some in Hi as (x & y & Hxy & Hx & Hy).
        simplify_eq. by eapply list_elem_of_lookup_2. }
      apply list_elem_of_lookup in Hin' as [i Hi].
      apply lookup_zip_with_Some in Hi as (f & p & Hfp & Hf & Hp). simplify_eq.
      unfold paths in Hp.
      apply lookup_zip_with_Some in Hp as (rnd & f' & -> & Hr & Hf').
      exists rnd. congruence.
    + by rewrite jobResult_omap.
    + apply failures_any_order.
    + done.
    + done.
Qed.

End Batch.

Section BatchStatements.
Import JS Supabase Eff FileUpload.
Context {P : Type} (E : Env) (base : jsstring) (props : Props P).

(** C4. Let [N] be the number of files of the batch that pass the size
    filter and [M] the number of upload requests of the run that failed.
    Then the trace holds one settled upload request for each of the [N]
    files, in their order, whatever the outcomes of the others; exactly
    [N - M] URLs are produced and handed to the parent in one call (no call
    when there is none); the console holds exactly [M] entries, one for each
    failed upload and naming its file, in the order in which the jobs were
    resumed; and the component has left the uploading state. *)
Theorem onDrop_partial_failures (st : State) (parent : P) (files : list File.t)
    (w : world E) :
  let r := run E (onDrop base props st parent files) w in
  let jobs := uploads r.2 in
  let N := length (validFilesOf files) in
  let M := length (filter (λ job, failed job.2) jobs) in
  let urls := omap (jobResult base) jobs in
  jobs.*1.*1 = validFilesOf files
  ∧ length jobs = N
  ∧ length urls = N - M
  ∧ r.1.1.2 = (if bool_decide (0 < N - M)
               then onUploadComplete props urls parent else parent)
  ∧ outputs r.2 ≡ₚ omap failureOf jobs
  ∧ length (outputs r.2) = M
  ∧ uploading r.1.1.1 = false.
Proof.
  intros r jobs N M urls.
  destruct (onDrop_summary E base props st parent files w)
    as (Hfiles & _ & Hparent & Hout & Hu & _).
  fold r jobs urls in Hfiles, Hparent, Hout, Hu.
  destruct (jobs_count base jobs) as [Hfail Hurls]. fold M urls in Hfail, Hurls.
  assert (HN : length jobs = N).
  { unfold N. rewrite <- Hfiles. by rewrite !length_fmap. }
  rewrite HN in Hurls.
  repeat split; try done.
  - by rewrite <- Hurls.
  - by rewrite Hout.
Qed.

(** The zone hands [onDrop] only files that pass its size filter. *)
Lemma validFilesOf_zone (batch : list File.t) :
  validFilesOf (filter zoneAccepts batch) = filter validate batch.
Proof.
  unfold validFilesOf. rewrite list_filter_filter.
  apply list_filter_iff. intros f. unfold validate.
  rewrite andb_True. tauto.
Qed.

Lemma run_drop (st : State) (parent : P) (batch : list File.t) (w : world E) :
  run E (drop base props st parent batch) w =
  if uploading st then ((st, parent), w, [])
  else run E (onDrop base props st parent (filter zoneAccepts batch)) w.
Proof. unfold drop, useDropzone. by destruct (uploading st). Qed.

(** Validation in terms of the file alone. *)
Lemma validate_spec (f : File.t) :
  validate f = false ↔ (25 * 1024 * 1024 < File.size f)%N ∨ typeAllowed f = false.
Proof.
  unfold validate, zoneAccepts, tooLarge, MAX_FILE_SIZE.
  destruct (typeAllowed f); simpl.
  - destruct (N.ltb_spec (25 * 1024 * 1024) (File.size f)); simpl; split; auto.
    intros [?|?]; [lia|done].
  - split; auto.
Qed.

(** C7. A dropped file is rejected by validation exactly when its size
    exceeds 25 * 1024 * 1024 bytes or its type is not in the allowed set.
    When a batch is dropped on the enabled zone, the upload requests of the
    run are one for each file of the batch that validation accepts, in the
    order of the batch and for no other file: a rejected file causes no
    request, and rejected files in the batch do not keep the accepted ones
    from being uploaded.  The run sends no request besides these uploads. *)
Theorem drop_uploads_validated (st : State) (parent : P) (batch : list File.t)
    (w : world E) :
  uploading st = false →
  let r := run E (drop base props st parent batch) w in
  (∀ f, validate f = false
        ↔ (25 * 1024 * 1024 < File.size f)%N ∨ typeAllowed f = false)
  ∧ (uploads r.2).*1.*1 = filter validate batch
  ∧ calls r.2 = (λ job, StorageUpload job.1.2 job.1.1) <$> uploads r.2
  ∧ (∀ f, f ∈ batch → validate f = false → f ∉ (uploads r.2).*1.*1)
  ∧ (∀ f, f ∈ batch → validate f = true → f ∈ (uploads r.2).*1.*1).
Proof.
  intros Hen r. subst r. rewrite run_drop, Hen.
  destruct (onDrop_summary E base props st parent (filter zoneAccepts batch) w)
    as (Hfiles & _ & _ & _ & _ & Hcalls).
  rewrite validFilesOf_zone in Hfiles. rewrite Hfiles.
  split; [apply validate_spec|]. split; [done|]. split; [done|]. split.
  - intros f _ Hrej [Hacc _]%list_elem_of_filter. rewrite Hrej in Hacc. done.
  - intros f Hin Hacc. apply list_elem_of_filter. split; [|done]. by rewrite Hacc.
Qed.

(** C9. When a batch is dropped, the parent's callback is applied once, to
    the URLs of the uploads that succeeded, if there is at least one; if
    there is none the parent's state is left as it was, whatever the
    callback.  There is none exactly when every upload request of the run
    failed, which covers the batch in which validation rejects every file:
    then no request is sent at all. *)
Theorem drop_without_success (st : State) (parent : P) (batch : list File.t)
    (w : world E) :
  let r := run E (drop base props st parent batch) w in
  let urls := omap (jobResult base) (uploads r.2) in
  (urls = [] → r.1.1.2 = parent)
  ∧ (urls ≠ [] → r.1.1.2 = onUploadComplete props urls parent)
  ∧ (urls = [] ↔ Forall (λ job, failed job.2 = true) (uploads r.2))
  ∧ ((∀ f, f ∈ batch → validate f = false) → r.2 = [] ∧ r.1.1.2 = parent).
Proof.
  intros r urls.
  assert (Hurls : urls = [] ↔ Forall (λ job, failed job.2 = true) (uploads r.2)).
  { unfold urls. induction (uploads r.2) as [|[[file path] o] jobs IH]; simpl.
    - split; auto.
    - rewrite Forall_cons. unfold failed at 1. simpl.
      destruct (checked o); simpl.
      + rewrite IH. tauto.
      + split; [done|]. intros [? _]. done. }
  assert (Hparent : r.1.1.2 = (if bool_decide (0 < length urls)
                               then onUploadComplete props urls parent else parent)).
  { unfold urls, r. rewrite run_drop. destruct (uploading st); [done|].
    apply (onDrop_summary E base props st parent (filter zoneAccepts batch) w). }
  split; [|split; [|split]].
  - intros Hnil. rewrite Hparent, Hnil. done.
  - intros Hsome. rewrite Hparent. rewrite bool_decide_true; [done|].
    destruct urls; simpl; [done|lia].
  - done.
  - intros Hrej. unfold r. rewrite run_drop. destruct (uploading st); [done|].
    assert (Hnone : validFilesOf (filter zoneAccepts batch) = []).
    { rewrite validFilesOf_zone.
      destruct (filter validate batch) as [|f l] eqn:Hf; [done|].
      assert (Hin : f ∈ filter validate batch) by (rewrite Hf; left).
      apply list_elem_of_filter in Hin as [Hacc Hin].
      rewrite (Hrej f Hin) in Hacc. done. }
    destruct (run_onDrop_none E base props st parent _ w Hnone) as (st1 & -> & _).
    done.
Qed.

End BatchStatements.

(** ** Saving, then loading *)

Section SaveLoad.
Import JS Supabase Eff NotePage.

(** The identifier under which the note is found after a save: the key the
    service generates for a new note, the route identifier otherwise. *)
Lemma fetch_after_write (w : Backend.World) (key : jsstring) (d : NoteData.t)
    (s : option Session) (g : nat) :
  Backend.faults w = [] →
  Backend.auth_uid w = Some (NoteData.user_id d) →
  let w' := Backend.withNotes (λ t, <[key := Backend.rowOf key d]> t) g w in
  note (run Backend.env (fetchNote (initial key s)) w').1.1
  = Some (Backend.rowOf key d).
Proof.
  intros Hfaults Hauth w'. unfold fetchNote. simpl.
  unfold Backend.serve. simpl. rewrite Hfaults. simpl.
  unfold Backend.visible, Backend.owns. simpl.
  rewrite lookup_insert_eq, Hauth. simpl.
  by rewrite bool_decide_true.
Qed.

(** What a successful write tells about the caller. *)
Lemma owns_auth (w : Backend.World) (u : jsstring) :
  Backend.owns w (Some u) = true → Backend.auth_uid w = Some u.
Proof.
  unfold Backend.owns. destruct (Backend.auth_uid w) as [u'|]; [|done].
  intros H%bool_decide_eq_true. congruence.
Qed.

(** C3 (amended). Take a draft whose trimmed title and trimmed category are
    non-empty, edited in a session, and a service without transport failures.
    If [handleSave] succeeds (the page navigates away), then loading the note
    afterwards under its identifier, which is the key generated by the
    service for a new note and the route identifier otherwise, yields a note
    whose title and category are the draft's title and category trimmed, and
    whose content, tags and attachments are the draft's. *)
Theorem save_then_load (w : Backend.World) (st : State) (n : Note.t) (s : Session) :
  note st = Some n → session st = Some s →
  trim (Note.title n) ≠ [] → trim (Note.category n) ≠ [] →
  Backend.faults w = [] →
  let key := if bool_decide (id st = new)
             then Backend.uuid w (Backend.generated w) else id st in
  let saved := run Backend.env (handleSave st) w in
  let loaded := run Backend.env (fetchNote (initial key (Some s))) saved.1.2 in
  Did (Navigate (str "/")) ∈ saved.2 →
  ∃ m, note loaded.1.1 = Some m
       ∧ Note.id m = key
       ∧ Note.title m = trim (Note.title n)
       ∧ Note.category m = trim (Note.category n)
       ∧ Note.content m = Note.content n
       ∧ Note.tags m = Note.tags n
       ∧ Note.attachments m = Note.attachments n.
Proof.
  intros Hn Hs _ _ Hfaults key saved loaded Hnav.
  assert (Hsaved : ∃ g, saved.1.2
            = Backend.withNotes (λ t, <[key := Backend.rowOf key (noteData n s)]> t) g w
          ∧ Backend.auth_uid w = Some (uid (user s))).
  { unfold saved in *. rewrite (run_handleSave Backend.env st n s w Hn Hs) in *.
    simpl in *. unfold saveCall, key in *. clear key saved loaded.
    unfold Backend.serve in *. rewrite Hfaults in *.
    destruct (bool_decide (id st = new)); simpl in *.
    - unfold Backend.insertRow in *.
      destruct (Backend.owns w (Some (NoteData.user_id (noteData n s)))) eqn:Howns;
        simpl in *.
      + destruct (Backend.notes w !! Backend.uuid w (Backend.generated w)); simpl in *.
        * absent_from_trace Hnav.
        * eexists. split; [reflexivity|]. by apply owns_auth.
      + absent_from_trace Hnav.
    - destruct (Backend.visible w (id st)); simpl in *.
      + destruct (Backend.owns w _) eqn:Howns; simpl in *.
        * eexists. split; [reflexivity|]. by apply owns_auth.
        * absent_from_trace Hnav.
      + absent_from_trace Hnav. }
  destruct Hsaved as (g & Hworld & Hauth).
  exists (Backend.rowOf key (noteData n s)).
  split; [|by repeat split].
  unfold loaded. rewrite Hworld. by apply fetch_after_write.
Qed.

End SaveLoad.

Lemma save_then_load_witness :
  let saved := Eff.run Backend.env (NotePage.handleSave Examples.newPage)
                       Examples.emptyWorld in
  let loaded := Eff.run Backend.env
                  (NotePage.fetchNote
                     (NotePage.initial Examples.noteId (Some Examples.alice)))
                  saved.1.2 in
  Eff.Did (Eff.Navigate (JS.str "/")) ∈ saved.2
  ∧ ∃ m, NotePage.note loaded.1.1 = Some m
         ∧ Note.title m = JS.str "Midterm Review"
         ∧ Note.attachments m = [Examples.examUrl].
Proof.
  intros saved loaded.
  assert (Hnav : Eff.Did (Eff.Navigate (JS.str "/")) ∈ saved.2).
  { vm_compute. right. left. }
  split; [exact Hnav|].
  destruct (save_then_load Examples.emptyWorld Examples.newPage Examples.draft
              Examples.alice eq_refl eq_refl
              ltac:(discriminate) ltac:(discriminate) eq_refl Hnav)
    as (m & Hm & _ & Htitle & _ & _ & _ & Hatt).
  exists m. split; [exact Hm|]. split; [exact Htitle|exact Hatt].
Defined.

(** C3 as stated fails: the draft's title is [" Midterm Review "], the title
    of the note loaded after the save is ["Midterm Review"]. *)
Lemma save_then_load_title_differs :
  let saved := Eff.run Backend.env (NotePage.handleSave Examples.newPage)
                       Examples.emptyWorld in
  let loaded := Eff.run Backend.env
                  (NotePage.fetchNote
                     (NotePage.initial Examples.noteId (Some Examples.alice)))
                  saved.1.2 in
  JS.trim (Note.title Examples.draft) ≠ []
  ∧ JS.trim (Note.category Examples.draft) ≠ []
  ∧ Eff.Did (Eff.Navigate (JS.str "/")) ∈ saved.2
  ∧ (Note.title <$> NotePage.note loaded.1.1) = Some (JS.str "Midterm Review")
  ∧ ¬ (∃ m, NotePage.note loaded.1.1 = Some m
            ∧ Note.title m = Note.title Examples.draft
            ∧ Note.content m = Note.content Examples.draft
            ∧ Note.category m = Note.category Examples.draft
            ∧ Note.tags m = Note.tags Examples.draft
            ∧ Note.attachments m = Note.attachments Examples.draft).
Proof.
  intros saved loaded.
  assert (Hloaded : Note.title <$> NotePage.note loaded.1.1
                    = Some (JS.str "Midterm Review")) by (vm_compute; reflexivity).
  split; [discriminate|]. split; [discriminate|].
  split; [vm_compute; set_unfold; auto|]. split; [exact Hloaded|].
  intros (m & Hm & Htitle & _). rewrite Hm in Hloaded. simpl in Hloaded.
  rewrite Htitle in Hloaded. discriminate Hloaded.
Qed.

(** ** The batch statements on the sample batch

    Five files are dropped on the page of the new note: the zone keeps three
    of them; the upload of the first succeeds, the other two fail; the jobs
    are resumed last, first, second. *)

Lemma drop_uploads_validated_witness :
  let r := Eff.run (Scripted.env [2; 0; 1])
             (FileUpload.drop Examples.supabaseUrl NotePage.uploadProps
                Examples.idle Examples.newPage Examples.batch)
             [Supabase.ok; Scripted.denied; Scripted.offline] in
  FileUpload.uploading Examples.idle = false
  ∧ (Eff.uploads r.2).*1.*1
    = [Examples.examPdf; Examples.lectureMov; Examples.slidesPptx].
Proof.
  intros r. split; [reflexivity|].
  exact (proj1 (proj2
    (drop_uploads_validated (Scripted.env [2; 0; 1]) Examples.supabaseUrl
       NotePage.uploadProps Examples.idle Examples.newPage Examples.batch
       [Supabase.ok; Scripted.denied; Scripted.offline] eq_refl))).
Defined.

Lemma onDrop_partial_failures_witness :
  let r := Eff.run (Scripted.env [2; 0; 1])
             (FileUpload.onDrop Examples.supabaseUrl NotePage.uploadProps
                Examples.idle Examples.newPage
                [Examples.examPdf; Examples.lectureMov; Examples.slidesPptx])
             [Supabase.ok; Scripted.denied; Scripted.offline] in
  length (Eff.uploads r.2) = 3
  ∧ length (omap (FileUpload.jobResult Examples.supabaseUrl) (Eff.uploads r.2)) = 3 - 2
  ∧ length (Eff.outputs r.2) = 2.
Proof.
  intros r.
  pose proof (onDrop_partial_failures (Scripted.env [2; 0; 1]) Examples.supabaseUrl
                NotePage.uploadProps Examples.idle Examples.newPage
                [Examples.examPdf; Examples.lectureMov; Examples.slidesPptx]
                [Supabase.ok; Scripted.denied; Scripted.offline])
    as (_ & HN & Hurls & _ & _ & HM & _).
  split; [exact HN|]. split; [exact Hurls|exact HM].
Defined.

Lemma drop_without_success_witness :
  let r := Eff.run (Scripted.env [])
             (FileUpload.drop Examples.supabaseUrl NotePage.uploadProps
                Examples.idle Examples.newPage Examples.batch)
             [Scripted.offline; Scripted.denied; Scripted.offline] in
  NotePage.draftAttachments r.1.1.2 = [Examples.examUrl].
Proof.
  intros r.
  pose proof (drop_without_success (Scripted.env []) Examples.supabaseUrl
                NotePage.uploadProps Examples.idle Examples.newPage Examples.batch
                [Scripted.offline; Scripted.denied; Scripted.offline])
    as (Hnone & _).
  fold r in Hnone. rewrite (Hnone eq_refl). reflexivity.
Defined.

(* ===================================================================== *)
(** * Further properties of the note page                                 *)
(* ===================================================================== *)

Section Loading.
Import JS Supabase Eff NotePage.
Context (E : Env).

(** X1. [fetchNote] sends exactly one request, the selection of the route
    identifier, and always ends the loading state.  When the request fails
    the draft is left as it was and the load error is shown.  When it
    succeeds the draft becomes the reply's data, even when that is [null],
    and an error shown before stays on screen. *)
Theorem fetchNote_settles (st : State) (w : world E) :
  let r := run E (fetchNote st) w in
  let o := (serve E (NotesSelectSingle (id st)) w).1 in
  calls r.2 = [NotesSelectSingle (id st)]
  ∧ loading r.1.1 = false
  ∧ (failed o = true →
       note r.1.1 = note st
       ∧ error r.1.1 = Some (str "Failed to load note. Please try again."))
  ∧ (∀ rep, checked o = inr rep →
       note r.1.1 = data rep ∧ error r.1.1 = error st ∧ outputs r.2 = []).
Proof.
  intros r o. subst r o. unfold fetchNote, failed. simpl.
  destruct (serve E _ w) as [o w1]. simpl.
  destruct (checked o) as [e|rep]; simpl.
  - split; [done|]. split; [done|]. split; [done|]. intros rep' H. discriminate H.
  - split; [done|]. split; [done|]. split; [intros H; discriminate H|].
    by intros rep' [= <-].
Qed.

(** X2. Mounting the page of a new note sends no request and yields the
    blank draft with no error; mounting any other page sends the one
    selection of its identifier.  Nothing checks the blank draft before it
    is saved: [handleSave] on the freshly mounted new page inserts a row with
    empty title and category. *)
Theorem mount_new_then_save (s : Session) (w : world E) :
  let page := run E (mount (initial new (Some s))) w in
  page.2 = []
  ∧ page.1.2 = w
  ∧ note page.1.1 = Some (Note.mk (str "new") [] [] [] [] [] None)
  ∧ loading page.1.1 = false
  ∧ calls (run E (handleSave page.1.1) w).2
    = [NotesInsert [NoteData.mk [] [] [] [] [] (uid (user s))]]
  ∧ (∀ i sess w', i ≠ str "new" →
       calls (run E (mount (initial i sess)) w').2 = [NotesSelectSingle i]).
Proof.
  intros page. subst page. unfold mount. simpl. repeat split.
  - destruct (serve E _ w) as [o w1]. simpl. by destruct (checked o).
  - intros i sess w' Hi. rewrite bool_decide_true by done.
    unfold fetchNote. simpl. destruct (serve E _ w') as [o w1]. simpl.
    by destruct (checked o).
Qed.

End Loading.

Section Attachments.
Import JS NotePage.

(** X3. [handleUploadComplete] appends the URLs, in their order, to the
    attachment list of a loaded draft, changes no other field of the note and
    closes the upload panel; two calls in a row amount to one call with the
    concatenated URLs; on a page without a draft the URLs are dropped. *)
Theorem handleUploadComplete_appends (urls urls' : list jsstring) (st : State) :
  (∀ n, note st = Some n →
     ∃ m, note (handleUploadComplete urls st) = Some m
          ∧ Note.attachments m = Note.attachments n ++ urls
          ∧ Note.id m = Note.id n ∧ Note.title m = Note.title n
          ∧ Note.content m = Note.content n ∧ Note.category m = Note.category n
          ∧ Note.tags m = Note.tags n ∧ Note.user_id m = Note.user_id n)
  ∧ (note st = None → note (handleUploadComplete urls st) = None)
  ∧ showUpload (handleUploadComplete urls st) = false
  ∧ handleUploadComplete urls' (handleUploadComplete urls st)
    = handleUploadComplete (urls ++ urls') st.
Proof.
  unfold handleUploadComplete, setShowUpload, setNote. simpl.
  split; [|split; [|split]].
  - intros n ->. eexists. split; [reflexivity|]. by repeat split.
  - by intros ->.
  - done.
  - destruct (note st); simpl; [|done]. by rewrite <- app_assoc.
Qed.

(** X4. The page's [handleRemoveFile] removes every occurrence of the URL
    from the draft and keeps the other attachments in their order; removing
    the same URL again changes nothing; and it undoes the attachment of a
    URL that was not in the list before. *)
Theorem handleRemoveFile_removes (url : jsstring) (st : State) :
(url ∉ draftAttachments (handleRemoveFile url st))
  ∧ draftAttachments (handleRemoveFile url st)
    = filter (λ u, u ≠ url) (draftAttachments st)
  ∧ (∀ u, u ≠ url → u ∈ draftAttachments st →
        u ∈ draftAttachments (handleRemoveFile url st))
  ∧ handleRemoveFile url (handleRemoveFile url st) = handleRemoveFile url st
  ∧ (url ∉ draftAttachments st →
       draftAttachments (handleRemoveFile url (handleUploadComplete [url] st))
       = draftAttachments st).
Proof.
  assert (Hfilter : ∀ st', draftAttachments (handleRemoveFile url st')
                    = filter (λ u, u ≠ url) (draftAttachments st')).
  { intros st'. unfold draftAttachments, handleRemoveFile. simpl.
    by destruct (note st'). }
  split; [|split; [|split; [|split]]].
  - rewrite Hfilter. intros [Hne _]%list_elem_of_filter. by apply Hne.
  - apply Hfilter.
  - intros u Hne Hin. rewrite Hfilter. by apply list_elem_of_filter.
  - unfold handleRemoveFile, setNote. simpl. destruct (note st); simpl; [|done].
    by rewrite list_filter_filter_l.
  - intros Hnot. rewrite Hfilter. clear Hfilter.
    unfold draftAttachments, handleUploadComplete in *. simpl.
    destruct (note st) as [n|]; simpl in *; [|done].
    rewrite filter_app. rewrite filter_cons_False by (intros H; by apply H).
    rewrite filter_nil, app_nil_r.
    induction (Note.attachments n) as [|u l IH]; [done|].
    apply not_elem_of_cons in Hnot as [Hne Hl].
    rewrite filter_cons_True by done. by rewrite IH.
Qed.

End Attachments.

Section DeleteOutcomes.
Import JS Supabase Eff NotePage.
Context (E : Env).

Lemma run_deleteRecord (st : State) (w : world E) :
  let c := NotesDelete (id st) in
  run E (deleteRecord st) w =
  match checked (serve E c w).1 with
  | inr _ => (st, (serve E c w).2, [Called c (serve E c w).1; Did (Navigate (str "/"))])
  | inl e =>
      (setError (Some deleteFailedMessage) st, (serve E c w).2,
       [Called c (serve E c w).1; Did (ConsoleError (str "Error deleting note:") e)])
  end.
Proof.
  unfold deleteRecord. simpl. destruct (serve E _ w) as [o w1]. simpl.
  by destruct (checked o).
Qed.

(** X5. When the draft has no attachments, or no draft is loaded at all,
    a confirmed [handleDelete] sends the record deletion as its only request,
    without touching the storage.  If it succeeds the page navigates to [/];
    if it fails the delete error is shown, the draft is kept and the page
    stays. *)
Theorem handleDelete_without_attachments (st : State) (w : world E) :
  draftAttachments st = [] →
  (answer E confirmDelete w).1 = true →
  let r := run E (handleDelete st) w in
  let o := (serve E (NotesDelete (id st)) (answer E confirmDelete w).2).1 in
  calls r.2 = [NotesDelete (id st)]
  ∧ (failed o = false →
       r.2 = [Asked confirmDelete true; Called (NotesDelete (id st)) o;
              Did (Navigate (str "/"))]
       ∧ r.1.1 = setError None st)
  ∧ (failed o = true →
       note r.1.1 = note st
       ∧ error r.1.1 = Some (str "Failed to delete note. Please try again.")
       ∧ ∀ to, Did (Navigate to) ∉ r.2).
Proof.
  intros Hnone Hyes r o.
  assert (Hrun : r = let '(st2, w2, tr) :=
                       run E (deleteRecord (setError None st))
                             (answer E confirmDelete w).2 in
                     (st2, w2, Asked confirmDelete true :: tr)).
  { unfold r, handleDelete. simpl.
    destruct (answer E confirmDelete w) as [yes w0]. simpl in *. subst yes. simpl.
    unfold draftAttachments in Hnone.
    destruct (note st) as [n|]; [|done]. rewrite Hnone. done. }
  rewrite Hrun. rewrite run_deleteRecord. simpl. fold o. unfold failed.
  destruct (checked o) as [e|rep]; simpl.
  - split; [done|]. split; [done|]. intros _. split; [done|]. split; [done|].
    intros to Hto. absent_from_trace Hto.
  - split; [done|]. split; [done|]. intros H. discriminate H.
Qed.

(** X6. When the attachments have been removed from the storage and the
    record deletion then fails, [handleDelete] has sent both requests, shows
    the delete error and stays on the page with the draft as it was: the
    draft still lists every attachment that has just been removed. *)
Theorem handleDelete_record_failure (st : State) (n : Note.t) (w : world E) :
  note st = Some n → Note.attachments n ≠ [] →
  (answer E confirmDelete w).1 = true →
  let names := (λ url, pop (split slash url)) <$> Note.attachments n in
  let w0 := (answer E confirmDelete w).2 in
  let w1 := (serve E (StorageRemove names) w0).2 in
  failed (serve E (StorageRemove names) w0).1 = false →
  failed (serve E (NotesDelete (id st)) w1).1 = true →
  let r := run E (handleDelete st) w in
  calls r.2 = [StorageRemove names; NotesDelete (id st)]
  ∧ draftAttachments r.1.1 = Note.attachments n
  ∧ error r.1.1 = Some (str "Failed to delete note. Please try again.")
  ∧ (∀ to, Did (Navigate to) ∉ r.2).
Proof.
  intros Hn Hatt Hyes names w0 w1 Hok Hfail r. subst r.
  rewrite (run_handleDelete E st n w Hn Hatt Hyes). fold names w0.
  unfold failed in Hok, Hfail.
  destruct (checked (serve E (StorageRemove names) w0).1) as [e|rep]; [done|].
  rewrite run_deleteRecord. fold w1. simpl.
  destruct (checked (serve E (NotesDelete (id st)) w1).1) as [e|rep']; [|done].
  simpl. split; [done|]. split.
  { unfold draftAttachments. simpl. by rewrite Hn. }
  split; [done|]. intros to Hto. absent_from_trace Hto.
Qed.

End DeleteOutcomes.

Section SaveOutcomes.
Import JS Supabase Eff NotePage.
Context (E : Env).

(** X7. When the request sent by [handleSave] succeeds, the page navigates
    to [/] once, the saving flag is cleared, an error shown before the save is
    gone, the draft is untouched and the request is the only one sent. *)
Theorem handleSave_success (st st' : State) (w w' : world E) (tr : list Event)
    (c : Call) (o : Outcome) :
  run E (handleSave st) w = (st', w', tr) →
  Called c o ∈ tr → failed o = false →
  tr = [Called c o; Did (Navigate (str "/"))]
  ∧ note st' = note st
  ∧ error st' = None
  ∧ saving st' = false.
Proof.
  intros Hrun Hin Hok.
  destruct (note st) as [n|] eqn:Hn; last first.
  { rewrite handleSave_guard in Hrun by auto.
    simpl in Hrun. simplify_eq. by apply elem_of_nil in Hin. }
  destruct (session st) as [s|] eqn:Hs; last first.
  { rewrite handleSave_guard in Hrun by auto.
    simpl in Hrun. simplify_eq. by apply elem_of_nil in Hin. }
  rewrite (run_handleSave E st n s w Hn Hs) in Hrun. simpl in Hrun.
  unfold failed in Hok.
  destruct (checked (serve E _ w).1) as [e|r] eqn:Hc; simplify_eq.
  - set_unfold in Hin. destruct Hin as [Hin|[Hin|[]]]; [|done]. simplify_eq.
    by rewrite Hc in Hok.
  - set_unfold in Hin. destruct Hin as [Hin|[Hin|[]]]; [|done]. simplify_eq.
    done.
Qed.

End SaveOutcomes.

(** ** Trimming *)

Section TrimFacts.
Import JS.

Lemma trimStart_split (s : jsstring) :
  ∃ pre, s = pre ++ trimStart s ∧ Forall (λ c, isWhiteSpace c = true) pre.
Proof.
  induction s as [|c s (pre & Hs & Hpre)]; simpl.
  - by exists [].
  - destruct (isWhiteSpace c) eqn:Hc.
    + exists (c :: pre). split; [simpl; by f_equal|]. by constructor.
    + by exists [].
Qed.

Lemma trimStart_head (s : jsstring) (c : N) :
  head (trimStart s) = Some c → isWhiteSpace c = false.
Proof.
  induction s as [|c' s IH]; simpl; [done|].
  destruct (isWhiteSpace c') eqn:Hc; [done|]. simpl. congruence.
Qed.

Lemma trimStart_id (s : jsstring) :
  (∀ c, head s = Some c → isWhiteSpace c = false) → trimStart s = s.
Proof.
  destruct s as [|c s]; simpl; [done|]. intros H. by rewrite (H c).
Qed.

Lemma trimEnd_split (s : jsstring) :
  ∃ post, s = trimEnd s ++ post ∧ Forall (λ c, isWhiteSpace c = true) post.
Proof.
  unfold trimEnd. destruct (trimStart_split (reverse s)) as (pre & Hs & Hpre).
  exists (reverse pre). split.
  - rewrite <- reverse_app, <- Hs. by rewrite reverse_involutive.
  - by apply Forall_reverse.
Qed.

Lemma trimEnd_last (s : jsstring) (c : N) :
  last (trimEnd s) = Some c → isWhiteSpace c = false.
Proof. unfold trimEnd. rewrite last_reverse. apply trimStart_head. Qed.

Lemma trimEnd_id (s : jsstring) :
  (∀ c, last s = Some c → isWhiteSpace c = false) → trimEnd s = s.
Proof.
  intros H. unfold trimEnd. rewrite trimStart_id; [apply reverse_involutive|].
  intros c Hc. apply H. by rewrite <- head_reverse.
Qed.

Lemma trimEnd_head (s : jsstring) (c : N) :
  head (trimEnd s) = Some c → head s = Some c.
Proof.
  destruct (trimEnd_split s) as (post & Hs & _). rewrite Hs at 2.
  by destruct (trimEnd s).
Qed.

Lemma trim_ends (s : jsstring) (c : N) :
  head (trim s) = Some c ∨ last (trim s) = Some c → isWhiteSpace c = false.
Proof.
  unfold trim. intros [H|H].
  - apply trimEnd_head in H. by apply trimStart_head in H.
  - by apply trimEnd_last in H.
Qed.

Lemma trim_idemp (s : jsstring) : trim (trim s) = trim s.
Proof.
  unfold trim at 1. rewrite trimStart_id.
  - apply trimEnd_id. intros c Hc. apply (trim_ends s). by right.
  - intros c Hc. apply (trim_ends s). by left.
Qed.

Lemma trim_split (s : jsstring) :
  ∃ pre post, s = pre ++ trim s ++ post
              ∧ Forall (λ c, isWhiteSpace c = true) pre
              ∧ Forall (λ c, isWhiteSpace c = true) post.
Proof.
  destruct (trimStart_split s) as (pre & Hs & Hpre).
  destruct (trimEnd_split (trimStart s)) as (post & Ht & Hpost).
  exists pre, post. split; [|done]. unfold trim. by rewrite <- Ht.
Qed.

End TrimFacts.

Section Payload.
Import JS Supabase Eff NotePage.

(** X8. The title and the category of the payload of [handleSave] are the
    draft's title and category with a run of white space taken off each end
    and nothing else: they neither begin nor end with white space and the
    text between is intact.  Saving a note whose fields are those of the
    payload sends the same payload again. *)
Theorem noteData_trimmed (n : Note.t) (s : Session) :
  let d := noteData n s in
  (∃ pre post, Note.title n = pre ++ NoteData.title d ++ post
               ∧ Forall (λ c, isWhiteSpace c = true) pre
               ∧ Forall (λ c, isWhiteSpace c = true) post)
  ∧ (∃ pre post, Note.category n = pre ++ NoteData.category d ++ post
                 ∧ Forall (λ c, isWhiteSpace c = true) pre
                 ∧ Forall (λ c, isWhiteSpace c = true) post)
  ∧ (∀ c, head (NoteData.title d) = Some c ∨ last (NoteData.title d) = Some c
          ∨ head (NoteData.category d) = Some c
          ∨ last (NoteData.category d) = Some c →
          isWhiteSpace c = false)
  ∧ (∀ m, Note.title m = NoteData.title d →
          Note.category m = NoteData.category d →
          Note.content m = NoteData.content d →
          Note.tags m = NoteData.tags d →
          Note.attachments m = NoteData.attachments d →
          noteData m s = d).
Proof.
  intros d. subst d. unfold noteData. simpl.
  split; [apply trim_split|]. split; [apply trim_split|]. split.
  - intros c [H|[H|[H|H]]]; eapply trim_ends; eauto.
  - intros m -> -> -> -> ->. by rewrite !trim_idemp.
Qed.

(** X9. Typing changes only the field typed into and sends nothing; what
    [handleSave] sends afterwards is the text typed last, the title and the
    category trimmed, an editor value of [undefined] as the empty text, and
    the tags and attachments of the draft.  On a page without a draft the
    input is lost. *)
Theorem typing_then_save (E : Env) (st : State) (n : Note.t) (s : Session)
    (t c : jsstring) (v : option jsstring) (w : world E) :
  note st = Some n → session st = Some s →
  let typed := NoteInputs.contentChanged v
                 (NoteInputs.categoryChanged c (NoteInputs.titleChanged t st)) in
  note typed
  = Some (Note.mk (Note.id n) t (match v with Some x => x | None => [] end) c
                  (Note.tags n) (Note.attachments n) (Note.user_id n))
  ∧ calls (run E (handleSave typed) w).2
    = [ let payload :=
          NoteData.mk (trim t) (match v with Some x => x | None => [] end) (trim c)
                      (Note.tags n) (Note.attachments n) (uid (user s)) in
        if bool_decide (id st = str "new")
        then NotesInsert [payload]
        else NotesUpdate payload (id st) ]
  ∧ (∀ st0, note st0 = None →
       note (NoteInputs.contentChanged v
               (NoteInputs.categoryChanged c (NoteInputs.titleChanged t st0)))
       = None).
Proof.
  intros Hn Hs typed.
  assert (Hv : NoteInputs.orEmpty v = match v with Some x => x | None => [] end).
  { by destruct v as [[|]|]. }
  assert (Htyped : note typed
            = Some (Note.mk (Note.id n) t (match v with Some x => x | None => [] end)
                            c (Note.tags n) (Note.attachments n) (Note.user_id n))).
  { unfold typed, NoteInputs.contentChanged, NoteInputs.categoryChanged,
      NoteInputs.titleChanged. simpl. rewrite Hn. simpl. by rewrite Hv. }
  split; [done|]. split.
  - rewrite (run_handleSave E typed _ s w Htyped Hs). simpl.
    destruct (checked _); simpl; unfold saveCall, new, noteData; simpl;
      by case_bool_decide.
  - intros st0 H0. unfold NoteInputs.contentChanged, NoteInputs.categoryChanged,
      NoteInputs.titleChanged. simpl. by rewrite H0.
Qed.

End Payload.

(* ===================================================================== *)
(** * Further properties of the upload component                          *)
(* ===================================================================== *)

Section LastSegment.
Import JS.

Lemma split_single (sep : N) (s seg : jsstring) :
  split sep s = [seg] → seg = s.
Proof.
  revert seg. induction s as [|c s IH]; intros seg; simpl.
  - by intros [= <-].
  - pose proof (split_nonempty sep s) as Hne.
    destruct (c =? sep)%N.
    + destruct (split sep s); [done|]. intros H. discriminate H.
    + destruct (split sep s) as [|seg0 segs]; [done|].
      intros [= <- ->]. f_equal. by apply IH.
Qed.

(** The last segment is the whole text, or what follows the last
    separator. *)
Lemma pop_split_cases (sep : N) (s seg : jsstring) :
  pop (split sep s) = Some seg → s = seg ∨ ∃ pre, s = pre ++ sep :: seg.
Proof.
  unfold pop. revert seg. induction s as [|c s IH]; intros seg; simpl.
  - intros [= <-]. by left.
  - pose proof (split_nonempty sep s) as Hne.
    destruct (N.eqb_spec c sep) as [->|Hc].
    + destruct (split sep s) as [|seg0 segs] eqn:Hsp; [done|].
      rewrite last_cons_cons. intros H. right.
      destruct (IH _ H) as [->|[pre ->]]; [by exists []|by exists (sep :: pre)].
    + destruct (split sep s) as [|seg0 segs] eqn:Hsp; [done|].
      destruct segs as [|seg1 segs].
      * intros [= <-]. left. by rewrite (split_single sep s seg0 Hsp).
      * rewrite last_cons_cons. intros H.
        destruct (IH seg) as [->|[pre ->]]; [by rewrite last_cons_cons| |].
        -- destruct (pop_split_is_Some sep seg) as (seg' & Hseg' & Hno & _).
           unfold pop in Hseg'. rewrite Hsp, last_cons_cons in Hseg'.
           assert (seg' = seg) as -> by congruence.
           rewrite split_no_sep in Hsp by done. discriminate Hsp.
        -- right. by exists (c :: pre).
Qed.

End LastSegment.

Section Names.
Import JS FileUpload.

(** X10. The object name that [handleRemoveFile], [handleDelete] and the
    list of uploaded files derive from a URL is always defined, never
    [undefined]: it contains no slash and is the whole URL, or what follows
    the last slash of the URL.  Hence the name list that [handleDelete] casts
    to [string[]] holds a name for every attachment. *)
Theorem objectName_defined (url : jsstring) :
  (∃ name, objectName url = Some name
           ∧ (slash ∉ name)
           ∧ (url = name ∨ ∃ pre, url = pre ++ [slash] ++ name))
  ∧ (∀ urls : list jsstring, ∃ names : list jsstring,
       objectName <$> urls = Some <$> names).
Proof.
  assert (Hdef : ∀ u, ∃ name, objectName u = Some name
           ∧ (slash ∉ name)
           ∧ (u = name ∨ ∃ pre, u = pre ++ [slash] ++ name)).
  { intros u. unfold objectName.
    destruct (pop_split_is_Some slash u) as (name & Hname & Hslash & _).
    exists name. split; [done|]. split; [done|]. by apply pop_split_cases. }
  split; [apply Hdef|].
  intros urls. induction urls as [|u urls [names IH]].
  - by exists [].
  - destruct (Hdef u) as (name & Hname & _). exists (name :: names).
    rewrite !fmap_cons. by rewrite Hname, IH.
Qed.

(** X11. The generated storage name is always the number's text, a dot and
    a dot-free extension taken from the end of the file name; the text
    [undefined] is never spliced in.  A file name without a dot is taken whole
    as the extension, and a file name ending in a dot gives an empty
    extension. *)
Theorem fileName_extension (r name : jsstring) :
  (∃ ext, fileName r name = r ++ str "." ++ ext
          ∧ (dot ∉ ext)
          ∧ (name = ext ∨ ∃ stem, name = stem ++ str "." ++ ext))
  ∧ (dot ∉ name → fileName r name = r ++ str "." ++ name)
  ∧ (∀ stem, fileName r (stem ++ str ".") = r ++ str ".").
Proof.
  unfold fileName, fileExt. split; [|split].
  - destruct (pop_split_is_Some dot name) as (ext & Hext & Hdot & _).
    exists ext. rewrite Hext. split; [done|]. split; [done|].
    by apply pop_split_cases.
  - intros Hno. by rewrite split_no_sep.
  - intros stem. rewrite str_dot.
    rewrite (pop_split_no_sep dot stem []) by apply not_elem_of_nil.
    done.
Qed.

(** X12. Two generated storage names are equal exactly when the numbers
    drawn have the same text and the files have the same extension: the rest
    of the file name plays no part, so two files with one extension collide
    on equal draws, and different draws never collide. *)
Theorem fileName_collision (r1 r2 name1 name2 : jsstring) :
  fileName r1 name1 = fileName r2 name2 ↔ r1 = r2 ∧ fileExt name1 = fileExt name2.
Proof.
  unfold fileName, fileExt.
  destruct (pop_split_is_Some dot name1) as (ext1 & -> & Hdot1 & _).
  destruct (pop_split_is_Some dot name2) as (ext2 & -> & Hdot2 & _).
  rewrite str_dot. simpl. split.
  - intros Heq.
    assert (Hext : ext1 = ext2).
    { pose proof (pop_split_no_sep dot r1 ext1 Hdot1) as H1.
      pose proof (pop_split_no_sep dot r2 ext2 Hdot2) as H2.
      simpl in Heq. rewrite Heq in H1. congruence. }
    subst ext2. split; [|done]. by apply app_inv_tail in Heq.
  - by intros [-> [= ->]].
Qed.

End Names.

Section DropState.
Import JS Supabase Eff FileUpload.
Context {P : Type} (E : Env) (base : jsstring) (props : Props P).

(** The state in which the jobs leave the component. *)
Lemma resumeAll_state (jobs : list (File.t * jsstring * Outcome)) (order : list nat)
    (st : State) (w : world E) :
  let st' := (run E (resumeAll jobs order st) w).1.1 in
  (error st' = None ↔
     error st = None
     ∧ ∀ i job, i ∈ order → jobs !! i = Some job → failed job.2 = false)
  ∧ (∀ msg, error st' = Some msg →
       error st = Some msg
       ∨ ∃ i job, i ∈ order ∧ jobs !! i = Some job ∧ failed job.2 = true
                  ∧ msg = failedMessage job.1.1)
  ∧ (∀ name,
       (uploadProgress st' !! name = Some 100%N ∧
        ∃ i job, i ∈ order ∧ jobs !! i = Some job ∧ failed job.2 = false
                 ∧ File.name job.1.1 = name)
       ∨ (uploadProgress st' !! name = uploadProgress st !! name ∧
          ∀ i job, i ∈ order → jobs !! i = Some job → failed job.2 = false →
                   File.name job.1.1 ≠ name)).
Proof.
  revert st. induction order as [|i order IH]; intros st; simpl.
  - split; [|split].
    + split; [intros H; split; [done|]|by intros [H _]].
      intros i job Hi. by apply elem_of_nil in Hi.
    + intros msg H. by left.
    + intros name. right. split; [done|]. intros i job Hi.
      by apply elem_of_nil in Hi.
  - destruct (jobs !! i) as [[[file path] o]|] eqn:Hi.
    + assert (Hrun : ∃ st1, (run E (resume (file, path, o) st ≫=
                               λ st', resumeAll jobs order st') w).1.1
                            = (run E (resumeAll jobs order st1) w).1.1
               ∧ st1 = match checked o with
                       | inr _ => setUploadProgress
                                    (λ prev, <[File.name file:=100%N]> prev) st
                       | inl _ => setError (Some (failedMessage file)) st
                       end).
      { unfold resume. destruct (checked o) as [e|rep]; simpl.
        - eexists. split; [|reflexivity].
          by destruct (run E (resumeAll jobs order _) w) as [[? ?] ?].
        - eexists. split; [|reflexivity]. done. }
      destruct Hrun as (st1 & Hrun & Hst1). rewrite Hrun.
      destruct (IH st1) as (Herr & Hmsg & Hprog). clear IH Hrun.
      assert (Hfo : failed o = match checked o with inl _ => true | inr _ => false end)
        by done.
      split; [|split].
      * rewrite Herr. destruct (checked o) as [e|rep]; subst st1; simpl.
        -- split; [by intros [H _]|]. intros [_ H].
           specialize (H i (file, path, o) ltac:(left) Hi). simpl in H. congruence.
        -- split.
           ++ intros [H0 H]. split; [done|]. intros j job [->|Hj]%elem_of_cons Hjob.
              ** rewrite Hi in Hjob. by simplify_eq.
              ** by eapply H.
           ++ intros [H0 H]. split; [done|]. intros j job Hj. apply H. by right.
      * intros msg Hm. destruct (Hmsg msg Hm) as [H|(j & job & Hj & Hjob & Hf & ->)].
        -- destruct (checked o) as [e|rep]; subst st1; simpl in H.
           ++ right. exists i, (file, path, o). split; [left|].
              split; [done|]. split; [done|]. simpl. congruence.
           ++ by left.
        -- right. exists j, job. split; [by right|done].
      * intros name. destruct (Hprog name) as [[H100 (j & job & Hj & Hjob & Hf & Hn)]|[Heq Hno]].
        -- left. split; [done|]. exists j, job. split; [by right|done].
        -- destruct (checked o) as [e|rep] eqn:Hc; subst st1; simpl in Heq.
           ++ right. split; [done|]. intros j job [->|Hj]%elem_of_cons Hjob Hf.
              ** rewrite Hi in Hjob. simplify_eq. simpl in Hf. congruence.
              ** by eapply Hno.
           ++ destruct (decide (File.name file = name)) as [Hname|Hname].
              ** left. rewrite Heq, Hname, lookup_insert_eq. split; [done|].
                 exists i, (file, path, o). split; [left|]. by repeat split.
              ** right. rewrite Heq, lookup_insert_ne by done. split; [done|].
                 intros j job [->|Hj]%elem_of_cons Hjob Hf.
                 --- rewrite Hi in Hjob. by simplify_eq.
                 --- by eapply Hno.
    + destruct (IH st) as (Herr & Hmsg & Hprog). clear IH.
      split; [|split].
      * rewrite Herr. split; intros [H0 H]; (split; [done|]).
        -- intros j job [->|Hj]%elem_of_cons Hjob; [congruence|by eapply H].
        -- intros j job Hj. apply H. by right.
      * intros msg Hm. destruct (Hmsg msg Hm) as [H|(j & job & Hj & Hrest)];
          [by left|]. right. exists j, job. split; [by right|done].
      * intros name. destruct (Hprog name) as [[H100 (j & job & Hj & Hrest)]|[Heq Hno]].
        -- left. split; [done|]. exists j, job. split; [by right|done].
        -- right. split; [done|].
           intros j job [->|Hj]%elem_of_cons Hjob; [congruence|by eapply Hno].
Qed.

End DropState.

Section DropReport.
Import JS Supabase Eff FileUpload.
Context {P : Type} (E : Env) (base : jsstring) (props : Props P).

(** The state [onDrop] starts its jobs from. *)
Lemma reportTooLarge_state (files : list File.t) (st : State) :
  error (reportTooLarge files st)
  = match last (filter (λ f, tooLarge f) files) with
    | Some f => Some (exceedsMessage f)
    | None => error st
    end
  ∧ uploading (reportTooLarge files st) = uploading st
  ∧ uploadProgress (reportTooLarge files st) = uploadProgress st.
Proof.
  unfold reportTooLarge.
  induction files as [|f files IH] using rev_ind; [done|].
  rewrite foldl_app, filter_app. simpl. rewrite filter_cons, filter_nil.
  destruct IH as (IH1 & IH2 & IH3).
  destruct (tooLarge f) eqn:Hf; simpl.
  - by rewrite last_snoc.
  - by rewrite app_nil_r.
Qed.

Lemma in_completionOrder (ps : list nat) (n i : nat) :
  i ∈ completionOrder ps n ↔ i < n.
Proof.
  rewrite (completionOrder_Permutation ps n). rewrite elem_of_seq. lia.
Qed.

(** The component's state after [onDrop], in terms of the jobs. *)
Lemma onDrop_state (st : State) (parent : P) (files : list File.t) (w : world E) :
  let r := run E (onDrop base props st parent files) w in
  let st0 := reportTooLarge files
               (setUploadProgress (λ _, ∅) (setUploading true (setError None st))) in
  ∃ (order : list nat) (w' : world E),
    (∀ i, i ∈ order ↔ i < length (uploads r.2))
    ∧ r.1.1.1 = setUploading false
                  (run E (resumeAll (uploads r.2) order st0) w').1.1.
Proof.
  intros r st0.
  destruct (decide (validFilesOf files = [])) as [Hnone|Hsome].
  - exists [], w. unfold r, onDrop. rewrite Hnone. simpl. split; [|done].
    intros i. split; [by intros ?%elem_of_nil|lia].
  - set (valid := validFilesOf files).
    set (rs := (drawAll E (length valid) w).1).
    set (w1 := (drawAll E (length valid) w).2).
    set (paths := zip_with (λ r f, fileName r (File.name f)) rs valid).
    set (cs := zip_with StorageUpload paths valid).
    set (os := (serveAll E cs w1).1).
    set (w2 := (serveAll E cs w1).2).
    set (order := completionOrder (picks E (length cs) w2).1 (length cs)).
    set (w3 := (picks E (length cs) w2).2).
    set (jobs := zip (zip valid paths) os).
    assert (Hjobs : length jobs = length cs).
    { unfold jobs, os. rewrite !length_zip, serveAll_length.
      unfold cs, paths. rewrite !length_zip_with. lia. }
    exists order, w3.
    assert (Hrun : r.2 = (Drew <$> rs) ++ zip_with Called cs os
                     ++ (Did <$> omap (λ i, jobs !! i ≫= failureOf) order)
             ∧ r.1.1.1 = setUploading false
                           (run E (resumeAll jobs order st0) w3).1.1).
    { unfold r, onDrop. fold valid.
      rewrite bool_decide_false by (by intros ?%nil_length_inv).
      rewrite run_mbind.
      pose proof (run_forEach_draw E (λ r f, fileName r (File.name f)) valid w)
        as Hdraw.
      cbv beta in Hdraw. rewrite Hdraw. clear Hdraw.
      fold rs w1 paths. cbv zeta. rewrite run_mbind, run_awaitAll.
      fold cs. cbv zeta. fold os w2 w3 order. cbn [fst snd]. fold jobs.
      rewrite run_mbind. fold st0.
      destruct (run_resumeAll E jobs order st0 w3) as (st1 & Hst1 & _).
      rewrite Hst1. simpl. by rewrite app_nil_r. }
    destruct Hrun as [Htr Hst].
    assert (Hup : uploads r.2 = jobs).
    { rewrite Htr, !uploads_app, uploads_Drew, uploads_Did, app_nil_r.
      unfold cs. by rewrite uploads_zip. }
    rewrite Hup. split; [|done].
    intros i. unfold order. rewrite in_completionOrder. by rewrite Hjobs.
Qed.

Lemma jobs_by_index (jobs : list (File.t * jsstring * Outcome)) (order : list nat)
    (Q : File.t * jsstring * Outcome → Prop) :
  (∀ i, i ∈ order ↔ i < length jobs) →
  (∀ i job, i ∈ order → jobs !! i = Some job → Q job) ↔ Forall Q jobs.
Proof.
  intros Horder. rewrite Forall_lookup. split.
  - intros H i job Hi. apply (H i job); [|done].
    apply Horder. by eapply lookup_lt_Some.
  - intros H i job _ Hi. by apply (H i).
Qed.

(** X13. After [onDrop] the component shows no error exactly when no file of
    the batch was over the size ceiling and no upload failed, whatever was
    shown before and in whatever order the jobs were resumed; a message shown
    names an oversized file or a file whose upload failed. *)
Theorem onDrop_error (st : State) (parent : P) (files : list File.t) (w : world E) :
  let r := run E (onDrop base props st parent files) w in
  (error r.1.1.1 = None ↔
     Forall (λ f, tooLarge f = false) files
     ∧ Forall (λ job, failed job.2 = false) (uploads r.2))
  ∧ (∀ msg, error r.1.1.1 = Some msg →
       (∃ f, f ∈ files ∧ tooLarge f = true ∧ msg = exceedsMessage f)
       ∨ (∃ job, job ∈ uploads r.2 ∧ failed job.2 = true
                 ∧ msg = failedMessage job.1.1)).
Proof.
  intros r.
  destruct (onDrop_state st parent files w) as (order & w' & Horder & Hst).
  fold r in Horder, Hst. rewrite Hst. simpl.
  set (st0 := reportTooLarge files _).
  destruct (resumeAll_state E (uploads r.2) order st0 w') as (Herr & Hmsg & _).
  destruct (reportTooLarge_state files
              (setUploadProgress (λ _, ∅) (setUploading true (setError None st))))
    as (Herr0 & _). fold st0 in Herr0. simpl in Herr0.
  split.
  - rewrite Herr. rewrite (jobs_by_index _ _ (λ job, failed job.2 = false) Horder).
    assert (H0 : error st0 = None ↔ Forall (λ f, tooLarge f = false) files).
    { rewrite Herr0. split.
      - intros Hlast. apply Forall_forall. intros f Hf.
        destruct (tooLarge f) eqn:Hl; [|done].
        assert (Hin : f ∈ filter (λ f, tooLarge f) files).
        { apply list_elem_of_filter. split; [by rewrite Hl|done]. }
        destruct (last (filter (λ f, tooLarge f) files)) eqn:Hlst; [done|].
        apply last_None in Hlst. rewrite Hlst in Hin. by apply elem_of_nil in Hin.
      - intros Hall.
        destruct (last (filter (λ f, tooLarge f) files)) as [f|] eqn:Hlst; [|done].
        apply last_Some in Hlst as [l Hl].
        assert (Hin : f ∈ filter (λ f, tooLarge f) files).
        { rewrite Hl. apply elem_of_app. right. left. }
        apply list_elem_of_filter in Hin as [Hf Hin].
        rewrite Forall_forall in Hall. rewrite (Hall f Hin) in Hf. done. }
    by rewrite H0.
  - intros msg Hm. destruct (Hmsg msg Hm) as [H|(i & job & _ & Hjob & Hf & ->)].
    + left. rewrite Herr0 in H.
      destruct (last (filter (λ f, tooLarge f) files)) as [f|] eqn:Hlst; [|done].
      apply last_Some in Hlst as [l Hl].
      assert (Hin : f ∈ filter (λ f, tooLarge f) files).
      { rewrite Hl. apply elem_of_app. right. left. }
      apply list_elem_of_filter in Hin as [Hf Hin].
      exists f. split; [done|]. split; [by apply Is_true_true|congruence].
    + right. exists job. split; [by eapply list_elem_of_lookup_2|done].
Qed.

(** X14. After [onDrop] the progress map holds 100 for the name of every
    file whose upload succeeded and nothing else: entries of an earlier batch
    are gone, and a failed upload leaves no entry unless a file of the same
    name succeeded. *)
Theorem onDrop_progress (st : State) (parent : P) (files : list File.t)
    (w : world E) (name : jsstring) :
  let r := run E (onDrop base props st parent files) w in
  (uploadProgress r.1.1.1 !! name = Some 100%N
   ∧ ∃ job, job ∈ uploads r.2 ∧ failed job.2 = false ∧ File.name job.1.1 = name)
  ∨ (uploadProgress r.1.1.1 !! name = None
     ∧ ∀ job, job ∈ uploads r.2 → failed job.2 = false → File.name job.1.1 ≠ name).
Proof.
  intros r.
  destruct (onDrop_state st parent files w) as (order & w' & Horder & Hst).
  fold r in Horder, Hst. rewrite Hst. simpl.
  set (st0 := reportTooLarge files _).
  destruct (resumeAll_state E (uploads r.2) order st0 w') as (_ & _ & Hprog).
  destruct (reportTooLarge_state files
              (setUploadProgress (λ _, ∅) (setUploading true (setError None st))))
    as (_ & _ & Hp0). fold st0 in Hp0. simpl in Hp0.
  destruct (Hprog name) as [[H100 (i & job & _ & Hjob & Hf & Hn)]|[Heq Hno]].
  - left. split; [done|]. exists job. split; [by eapply list_elem_of_lookup_2|done].
  - right. rewrite Heq, Hp0, lookup_empty. split; [done|].
    intros job [i Hi]%list_elem_of_lookup Hf. eapply Hno; [|done..].
    apply Horder. by eapply lookup_lt_Some.
Qed.

(** X15. When no file handed to [onDrop] passes the size filter, which
    includes the empty batch, nothing is drawn or sent, the parent is not
    called and the world is untouched; the component leaves the uploading
    state with an empty progress map, showing the message of the last
    oversized file, or no error for the empty batch. *)
Theorem onDrop_nothing_valid (st : State) (parent : P) (files : list File.t)
    (w : world E) :
  Forall (λ f, tooLarge f = true) files →
  let r := run E (onDrop base props st parent files) w in
  r.2 = [] ∧ r.1.2 = w ∧ r.1.1.2 = parent
  ∧ uploading r.1.1.1 = false
  ∧ uploadProgress r.1.1.1 = ∅
  ∧ error r.1.1.1 = exceedsMessage <$> last files.
Proof.
  intros Hall.
  assert (Hnone : validFilesOf files = []).
  { unfold validFilesOf. induction Hall as [|f l Hf _ IH]; [done|].
    rewrite filter_cons_False; [done|]. rewrite Hf. simpl. tauto. }
  assert (Hlarge : filter (λ f, tooLarge f) files = files).
  { clear Hnone. induction Hall as [|f l Hf _ IH]; [done|].
    rewrite filter_cons_True by (rewrite Hf; exact I). by rewrite IH. }
  destruct (reportTooLarge_state files
              (setUploadProgress (λ _, ∅) (setUploading true (setError None st))))
    as (He & _ & Hp).
  intros r. unfold r, onDrop. rewrite Hnone. simpl. rewrite He, Hp, Hlarge. simpl.
  repeat split.
Qed.

End DropReport.

Section RemoveEdges.
Import JS Supabase Eff.
Context {P : Type} (E : Env).

(** X16. The upload component's [handleRemoveFile] does nothing at all when
    the parent passed no [onRemoveFile].  For a URL that is empty or ends in
    a slash the derived object name is empty: no removal request is sent, and
    the parent is still told to drop the URL. *)
Theorem handleRemoveFile_without_request (st : FileUpload.State) (parent : P)
    (w : world E) :
  (∀ props url, FileUpload.onRemoveFile props = None →
     run E (FileUpload.handleRemoveFile props st parent url) w = ((st, parent), w, []))
  ∧ (∀ props cb url,
       FileUpload.onRemoveFile props = Some cb →
       url = [] ∨ (∃ pre, url = pre ++ [slash]) →
       run E (FileUpload.handleRemoveFile props st parent url) w
       = ((st, cb url parent), w, [])).
Proof.
  split.
  - intros props url Hnone. unfold FileUpload.handleRemoveFile. by rewrite Hnone.
  - intros props cb url Hcb Hurl. unfold FileUpload.handleRemoveFile. rewrite Hcb.
    assert (Hname : FileUpload.objectName url = Some []).
    { destruct Hurl as [->|[pre ->]]; [done|].
      unfold FileUpload.objectName.
      apply (pop_split_no_sep slash pre []), not_elem_of_nil. }
    by rewrite Hname.
Qed.

End RemoveEdges.

Section DropOnPage.
Import JS Supabase Eff FileUpload.
Context (E : Env) (base : jsstring).

(** X17. When a batch is dropped on the upload panel of the note page, the
    URLs of the uploads that succeeded are appended to the draft's
    attachment list in the order of the files of the batch, whatever the
    order in which the uploads finished, and the panel is closed; without a
    successful upload the page is left as it was.  On a page without a draft
    the uploads are made all the same and their URLs are lost. *)
Theorem drop_on_page (st : State) (page : NotePage.State) (batch : list File.t)
    (w : world E) :
  let r := run E (drop base NotePage.uploadProps st page batch) w in
  let urls := omap (jobResult base) (uploads r.2) in
  NotePage.draftAttachments r.1.1.2 = 
    match NotePage.note page with
    | Some n => Note.attachments n ++ urls
    | None => []
    end
  ∧ (NotePage.note page = None → NotePage.note r.1.1.2 = None)
  ∧ (urls = [] → r.1.1.2 = page)
  ∧ (urls ≠ [] → NotePage.showUpload r.1.1.2 = false)
  ∧ (uploading st = false → (uploads r.2).*1.*1 = filter validate batch).
Proof.
  intros r urls.
  assert (Hparent : r.1.1.2 = (if bool_decide (0 < length urls)
                     then NotePage.handleUploadComplete urls page else page)
            ∧ (uploading st = false → (uploads r.2).*1.*1 = filter validate batch)).
  { unfold urls, r. rewrite run_drop. destruct (uploading st); [done|].
    destruct (onDrop_summary E base NotePage.uploadProps st page
                (filter zoneAccepts batch) w) as (Hfiles & _ & Hp & _).
    split; [apply Hp|]. intros _. by rewrite <- validFilesOf_zone. }
  destruct Hparent as [Hparent Hfiles]. rewrite Hparent.
  destruct urls as [|u urls'] eqn:Hurls; simpl.
  - split; [|split; [done|split; [done|split; [done|done]]]].
    unfold NotePage.draftAttachments. destruct (NotePage.note page); [|done].
    by rewrite app_nil_r.
  - split; [|split; [|split; [done|split; [done|done]]]].
    + unfold NotePage.draftAttachments, NotePage.handleUploadComplete. simpl.
      by destruct (NotePage.note page).
    + by intros ->.
Qed.

End DropOnPage.

(* ===================================================================== *)
(** * Properties of the dashboard                                         *)
(* ===================================================================== *)

Section Search.
Import JS Dashboard.

Lemma includes_spec (s t : jsstring) :
  includes s t = true ↔ ∃ pre post, s = pre ++ t ++ post.
Proof.
  induction s as [|c s IH]; simpl.
  - rewrite orb_false_r, bool_decide_eq_true. split.
    + intros [k Hk]. exists [], k. done.
    + intros (pre & post & H). exists post.
      symmetry in H. apply app_eq_nil in H as [-> H]. done.
  - rewrite orb_true_iff, bool_decide_eq_true, IH. split.
    + intros [[k Hk]|(pre & post & ->)].
      * by exists [], k.
      * by exists (c :: pre), post.
    + intros (pre & post & H). destruct pre as [|c' pre]; simpl in H.
      * left. by exists post.
      * right. injection H as -> ->. by exists pre, post.
Qed.

Lemma includes_trans (s t u : jsstring) :
  includes s t = true → includes t u = true → includes s u = true.
Proof.
  rewrite !includes_spec. intros (p1 & q1 & ->) (p2 & q2 & ->).
  exists (p1 ++ p2), (q2 ++ q1). by rewrite <- !app_assoc.
Qed.

Context (toLowerCase : jsstring → jsstring).

(** X18. The notes the dashboard shows are notes of its list, in the order
    of the list: a note is shown exactly when
    the lower-cased search term occurs in its lower-cased title or category.
    With a search term whose lower-cased text is empty every note is shown.
    Typing a search term never changes the list itself. *)
Theorem filteredNotes_shown (st : State) :
  filteredNotes toLowerCase st `sublist_of` notes st
  ∧ (∀ note, note ∈ filteredNotes toLowerCase st ↔
       note ∈ notes st
       ∧ ((∃ pre post, toLowerCase (title note)
                       = pre ++ toLowerCase (searchTerm st) ++ post)
          ∨ (∃ pre post, toLowerCase (category note)
                         = pre ++ toLowerCase (searchTerm st) ++ post)))
  ∧ (toLowerCase (searchTerm st) = [] → filteredNotes toLowerCase st = notes st)
  ∧ (∀ term, notes (setSearchTerm term st) = notes st).
Proof.
  unfold filteredNotes. split; [apply sublist_filter|]. split; [|split; [|done]].
  - intros note. rewrite list_elem_of_filter. unfold shown.
    rewrite orb_True, !Is_true_true, !includes_spec. tauto.
  - intros Hempty. induction (notes st) as [|note l IH]; [done|].
    rewrite filter_cons_True; [by rewrite IH|].
    unfold shown. rewrite Hempty. apply orb_True. left. apply Is_true_true.
    apply includes_spec. by exists [], (toLowerCase (title note)).
Qed.

(** X19. Refining the search never brings a note back: if the lower-cased
    old term occurs in the lower-cased new term, the notes shown for the new
    term are among the notes shown for the old one, in the same order. *)
Theorem filteredNotes_refine (st : State) (term term' : jsstring) :
  includes (toLowerCase term') (toLowerCase term) = true →
  filteredNotes toLowerCase (setSearchTerm term' st)
    `sublist_of` filteredNotes toLowerCase (setSearchTerm term st).
Proof.
  intros Hocc. unfold filteredNotes. simpl.
  assert (Himp : ∀ note, shown toLowerCase term' note → shown toLowerCase term note).
  { intros note. unfold shown. rewrite !orb_True, !Is_true_true.
    intros [H|H]; [left|right]; by eapply includes_trans. }
  induction (notes st) as [|note l IH]; [done|].
  rewrite !filter_cons.
  destruct (decide (shown toLowerCase term' note)) as [H'|H'].
  - rewrite decide_True by auto. by constructor.
  - destruct (decide (shown toLowerCase term note)); [by constructor|done].
Qed.

(** X20. [fetchNotes] always ends the loading state and never touches the
    search term.  A reply without error replaces the list by its data, by the
    empty list when the data is [null], and writes nothing to the console; a
    reply with an error, or a rejected request, leaves the list as it was
    and writes one console entry, so the notes shown afterwards are those
    shown before. *)
Theorem fetchNotes_settles (o : Listing) (st : State) :
  let r := fetchNotes o st in
  loading r.1 = false
  ∧ searchTerm r.1 = searchTerm st
  ∧ (∀ data, o = Resolved data None →
       notes r.1 = default [] data ∧ r.2 = []
       ∧ (data = None → filteredNotes toLowerCase r.1 = []))
  ∧ ((∀ data, o ≠ Resolved data None) →
       notes r.1 = notes st ∧ length r.2 = 1
       ∧ filteredNotes toLowerCase r.1 = filteredNotes toLowerCase st).
Proof.
  intros r. subst r. destruct o as [data [e|]|e]; simpl.
  - split; [done|]. split; [done|]. split; [|done].
    intros data' H. discriminate H.
  - split; [done|]. split; [done|]. split.
    + intros data' [= <-]. split; [done|]. split; [done|]. by intros ->.
    + intros H. by destruct (H data).
  - split; [done|]. split; [done|]. split; [|done].
    intros data' H. discriminate H.
Qed.

End Search.

(* ===================================================================== *)
(** * Uploading or removing, then saving                                  *)
(* ===================================================================== *)

Section ThenSave.
Import JS Supabase Eff.
Context (E : Env) (base : jsstring).

(** X21. What is saved is the attachment list as the upload component left
    it.  After a batch has been dropped on the page of a loaded draft,
    [handleSave] sends the draft's former attachments followed by the URLs of
    the uploads that succeeded; after [handleRemoveFile] has been answered
    without rejection, it sends the former attachments without the removed
    URL.  The other fields of the payload are those of the draft. *)
Theorem attachments_then_save (fu : FileUpload.State) (page : NotePage.State)
    (n : Note.t) (s : NotePage.Session) (w w' : world E) :
  NotePage.note page = Some n → NotePage.session page = Some s →
  let payload atts :=
    NoteData.mk (trim (Note.title n)) (Note.content n) (trim (Note.category n))
                (Note.tags n) atts (NotePage.uid (NotePage.user s)) in
  (∀ batch,
     let r := run E (FileUpload.drop base NotePage.uploadProps fu page batch) w in
     let urls := omap (FileUpload.jobResult base) (uploads r.2) in
     calls (run E (NotePage.handleSave r.1.1.2) w').2
     = [NotePage.saveCall (NotePage.id page) (payload (Note.attachments n ++ urls))])
  ∧ (∀ url name,
       FileUpload.objectName url = Some name → name ≠ [] →
       (∀ e, (serve E (StorageRemove [Some name]) w).1 ≠ Rejected e) →
       let r := run E (FileUpload.handleRemoveFile NotePage.uploadProps fu page url)
                      w in
       calls (run E (NotePage.handleSave r.1.1.2) w').2
       = [NotePage.saveCall (NotePage.id page)
            (payload (filter (λ u, u ≠ url) (Note.attachments n)))]).
Proof.
  intros Hn Hs payload.
  assert (Hsave : ∀ page' atts,
            NotePage.id page' = NotePage.id page →
            NotePage.session page' = Some s →
            NotePage.note page'
            = Some (Note.mk (Note.id n) (Note.title n) (Note.content n)
                            (Note.category n) (Note.tags n) atts (Note.user_id n)) →
            calls (run E (NotePage.handleSave page') w').2
            = [NotePage.saveCall (NotePage.id page) (payload atts)]).
  { intros page' atts Hid Hs' Hn'.
    rewrite (run_handleSave E page' _ s w' Hn' Hs'). simpl. rewrite Hid.
    by destruct (checked _). }
  split.
  - intros batch r urls.
    assert (Hparent : r.1.1.2 = (if bool_decide (0 < length urls)
                       then NotePage.handleUploadComplete urls page else page)).
    { unfold urls, r. rewrite run_drop. destruct (FileUpload.uploading fu); [done|].
      apply (onDrop_summary E base NotePage.uploadProps fu page
               (filter FileUpload.zoneAccepts batch) w). }
    rewrite Hparent. destruct urls as [|u urls']; simpl.
    + apply Hsave; [done..|]. rewrite Hn, app_nil_r. by destruct n.
    + apply Hsave; [done..|]. simpl. by rewrite Hn.
  - intros url name Hname Hne Hrej r. subst r.
    rewrite (run_handleRemoveFile E NotePage.uploadProps NotePage.handleRemoveFile
               fu page url name w eq_refl Hname Hne).
    destruct (serve E _ w).1 as [rep|e] eqn:Ho; [|by destruct (Hrej e)].
    simpl. apply Hsave; [done..|]. simpl. by rewrite Hn.
Qed.

End ThenSave.

(* ===================================================================== *)
(** * The further statements on sample data                               *)
(* ===================================================================== *)

Lemma handleDelete_without_attachments_witness :
  let r := Eff.run (Scripted.env []) (NotePage.handleDelete PlainExamples.plainPage)
                   [Scripted.denied] in
  Eff.calls r.2 = [Supabase.NotesDelete Examples.noteId]
  ∧ NotePage.error r.1.1 = Some (JS.str "Failed to delete note. Please try again.").
Proof.
  intros r.
  destruct (handleDelete_without_attachments (Scripted.env [])
              PlainExamples.plainPage [Scripted.denied] eq_refl eq_refl)
    as (Hcalls & _ & Hfail).
  split; [exact Hcalls|]. exact (proj1 (proj2 (Hfail eq_refl))).
Defined.

Lemma handleDelete_record_failure_witness :
  let r := Eff.run (Scripted.env []) (NotePage.handleDelete Examples.storedPage)
                   [Supabase.ok; Scripted.offline] in
  Eff.calls r.2 = [Supabase.StorageRemove [Some (JS.str "0.5.pdf")];
                   Supabase.NotesDelete Examples.noteId]
  ∧ NotePage.draftAttachments r.1.1 = [Examples.examUrl].
Proof.
  intros r.
  destruct (handleDelete_record_failure (Scripted.env []) Examples.storedPage
              Examples.stored [Supabase.ok; Scripted.offline]
              eq_refl ltac:(discriminate) eq_refl eq_refl eq_refl)
    as (Hcalls & Hatt & _).
  split; [exact Hcalls|exact Hatt].
Defined.

Lemma handleSave_success_witness :
  let r := Eff.run (Scripted.env []) (NotePage.handleSave Examples.storedPage)
                   [Supabase.ok] in
  NotePage.note r.1.1 = Some Examples.stored
  ∧ NotePage.error r.1.1 = None
  ∧ NotePage.saving r.1.1 = false.
Proof.
  intros r.
  refine (proj2 (handleSave_success (Scripted.env []) Examples.storedPage r.1.1
                   [Supabase.ok] r.1.2 r.2 _ Supabase.ok eq_refl _ eq_refl)).
  apply list_elem_of_here.
Defined.

Lemma typing_then_save_witness :
  Eff.calls
    (Eff.run (Scripted.env [])
       (NotePage.handleSave
          (NoteInputs.contentChanged None
             (NoteInputs.categoryChanged (JS.str "Botany ")
                (NoteInputs.titleChanged (JS.str " Final") Examples.newPage))))
       []).2
  = [Supabase.NotesInsert
       [NoteData.mk (JS.str "Final") [] (JS.str "Botany") [JS.str "exam"]
                    [Examples.examUrl] (JS.str "alice")]].
Proof.
  exact (proj1 (proj2
    (typing_then_save (Scripted.env []) Examples.newPage Examples.draft
       Examples.alice (JS.str " Final") (JS.str "Botany ") None []
       eq_refl eq_refl))).
Defined.

Lemma onDrop_nothing_valid_witness :
  let r := Eff.run (Scripted.env [])
             (FileUpload.onDrop Examples.supabaseUrl NotePage.uploadProps
                Examples.idle Examples.newPage [Examples.hugeMp4])
             [] in
  r.2 = []
  ∧ FileUpload.error r.1.1.1 = Some (FileUpload.exceedsMessage Examples.hugeMp4).
Proof.
  intros r.
  assert (Hall : Forall (λ f, FileUpload.tooLarge f = true) [Examples.hugeMp4]).
  { constructor; [reflexivity|constructor]. }
  destruct (onDrop_nothing_valid (Scripted.env []) Examples.supabaseUrl
              NotePage.uploadProps Examples.idle Examples.newPage
              [Examples.hugeMp4] [] Hall)
    as (Htr & _ & _ & _ & _ & Herr).
  split; [exact Htr|exact Herr].
Defined.

Lemma filteredNotes_refine_witness :
  Dashboard.includes (FileUpload.toLowerCase (JS.str "Biol"))
                     (FileUpload.toLowerCase (JS.str "bio")) = true
  ∧ Dashboard.filteredNotes FileUpload.toLowerCase
      (Dashboard.setSearchTerm (JS.str "Biol") DashboardExamples.listed)
    `sublist_of`
    Dashboard.filteredNotes FileUpload.toLowerCase
      (Dashboard.setSearchTerm (JS.str "bio") DashboardExamples.listed).
Proof.
  split; [reflexivity|].
  exact (filteredNotes_refine FileUpload.toLowerCase DashboardExamples.listed
           (JS.str "bio") (JS.str "Biol") eq_refl).
Defined.

Lemma attachments_then_save_witness :
  let r := Eff.run (Scripted.env [])
             (FileUpload.drop Examples.supabaseUrl NotePage.uploadProps
                Examples.idle Examples.newPage [Examples.slidesPptx])
             [Supabase.ok] in
  Eff.calls (Eff.run (Scripted.env []) (NotePage.handleSave r.1.1.2) []).2
  = [Supabase.NotesInsert
       [NoteData.mk (JS.str "Midterm Review") (JS.str "# Cells") (JS.str "Biology")
          [JS.str "exam"]
          [Examples.examUrl;
           FileUpload.getPublicUrl Examples.supabaseUrl (JS.str "0.5.pptx")]
          (JS.str "alice")]].
Proof.
  exact (proj1
    (attachments_then_save (Scripted.env []) Examples.supabaseUrl Examples.idle
       Examples.newPage Examples.draft Examples.alice [Supabase.ok] []
       eq_refl eq_refl) [Examples.slidesPptx]).
Defined.
